(** * The request/quota coordination layer of the YT AI Processor front end

    A shallow embedding of [frontend/src/App.js]: the React state of the
    [App] component, the browser's [localStorage], the notifications sent
    to [toast], and the three asynchronous stage handlers built on
    [handleApiCall].

    Modelling conventions.
    - A JavaScript string is the list of its UTF-16 code units.
    - The component state is one record, [World], which also carries the
      two ambient objects the code talks to ([localStorage] and the log of
      [toast] calls).  A state setter takes effect at the point of the
      call, in program order.
    - An [async] function is a [Task]: either settled (returned or thrown)
      or suspended at its [await axios.post(...)] with the continuation
      that runs when the response arrives.  The continuation receives the
      world as it is at that later moment, so events handled in between
      are accounted for.
    - The HTTP payloads are typed as the code reads them: [data.transcript]
      and [data.result] are strings, [error.response?.data?.detail] is a
      string when it is there.  The module [Dyn] embeds the same handlers
      once more on values of any type, for what the code does when a reply
      does not keep to that. *)

From Stdlib Require Import String Ascii.
From stdpp Require Import base option list gmap.

Local Open Scope N_scope.

(** ** JavaScript strings *)

Abbreviation jsstring := (list N).

(** An ASCII literal as a list of code units. *)
Definition lit (s : string) : jsstring :=
  N_of_ascii <$> list_ascii_of_string s.

(** [WhiteSpace] and [LineTerminator] of ECMAScript: what
    [String.prototype.trim] strips. *)
Definition is_trim_space (c : N) : bool :=
  (c =? 9) || (c =? 10) || (c =? 11) || (c =? 12) || (c =? 13) ||
  (c =? 32) || (c =? 160) || (c =? 5760) ||
  ((8192 <=? c) && (c <=? 8202)) ||
  (c =? 8232) || (c =? 8233) || (c =? 8239) || (c =? 8287) ||
  (c =? 12288) || (c =? 65279).

Fixpoint trimStart (s : jsstring) : jsstring :=
  match s with
  | [] => []
  | c :: s' => if is_trim_space c then trimStart s' else s
  end.

Definition trimEnd (s : jsstring) : jsstring :=
  reverse (trimStart (reverse s)).

Definition trim (s : jsstring) : jsstring := trimEnd (trimStart s).

(** Truthiness of a string: only the empty string is falsy. *)
Definition truthy (s : jsstring) : bool :=
  match s with [] => false | _ :: _ => true end.

(** Truthiness of a string-or-null/undefined value. *)
Definition truthy_opt (o : option jsstring) : bool :=
  match o with Some s => truthy s | None => false end.

(** [o || dflt] for a string-or-undefined [o]. *)
Definition or_default (o : option jsstring) (dflt : jsstring) : jsstring :=
  match o with
  | Some s => if truthy s then s else dflt
  | None => dflt
  end.

(** ** Data *)

Inductive Toast :=
| ToastSuccess (msg : jsstring)
| ToastError (msg : jsstring).

(** The request body: [{ url }] or [{ text: transcript }]. *)
Inductive Body :=
| BodyUrl (u : jsstring)
| BodyText (text : jsstring).

Record Request := mkRequest {
  req_url : jsstring;
  req_data : Body;
  req_headers : gmap (list N) (list N)
}.

(** [response.data] of a fulfilled call. *)
Record ResponseData := mkData {
  data_transcript : jsstring;
  data_result : jsstring
}.

(** [error.response.data] and [error.response] of a rejected call. *)
Record ErrorData := mkErrorData { detail : option jsstring }.

Record ErrorResponse := mkErrorResponse {
  status : N;
  data : option ErrorData
}.

(** The error axios rejects with; [response] is undefined when no
    response was received. *)
Record AxiosError := mkAxiosError { response : option ErrorResponse }.

Inductive Outcome :=
| Fulfilled (d : ResponseData)
| Rejected (e : AxiosError).

(** [error.response?.status === 429] *)
Definition status_is_429 (error : AxiosError) : bool :=
  match response error with
  | Some r => status r =? 429
  | None => false
  end.

(** [error.response?.data?.detail] *)
Definition error_detail (error : AxiosError) : option jsstring :=
  r ← response error; d ← data r; detail d.

(** ** State *)

Record World := mkWorld {
  url : jsstring;
  transcript : jsstring;
  summary : jsstring;
  enrichment : jsstring;
  loading : gmap (list N) bool;
  isUpgradeModalOpen : bool;
  proKey : option jsstring;
  localStorage : gmap (list N) (list N);
  toasts : list Toast
}.

(** The three text fields the spec calls PipelineState. *)
Definition pipeline (w : World) : jsstring * jsstring * jsstring :=
  (transcript w, summary w, enrichment w).

(** ** Asynchronous computations *)

Inductive Completion (A : Type) :=
| Normal (a : A)
| Throw (e : AxiosError).
Arguments Normal {A} a.
Arguments Throw {A} e.

Inductive Task (A : Type) :=
| Settled (c : Completion A) (w : World)
| Pending (req : Request) (w : World) (k : Outcome → World → Task A).
Arguments Settled {A} c w.
Arguments Pending {A} req w k.

Definition M (A : Type) : Type := World → Task A.

Fixpoint task_bind {A B} (t : Task A) (f : A → M B) : Task B :=
  match t with
  | Settled (Normal a) w => f a w
  | Settled (Throw e) w => Settled (Throw e) w
  | Pending req w k => Pending req w (λ o w', task_bind (k o w') f)
  end.

Fixpoint task_catch {A} (t : Task A) (h : AxiosError → M A) : Task A :=
  match t with
  | Settled (Normal a) w => Settled (Normal a) w
  | Settled (Throw e) w => h e w
  | Pending req w k => Pending req w (λ o w', task_catch (k o w') h)
  end.

(** The finalizer runs on every completion; when it completes normally
    the completion of the protected block stands. *)
Fixpoint task_finally {A} (t : Task A) (fin : M unit) : Task A :=
  match t with
  | Settled c w => task_bind (fin w) (λ _ w', Settled c w')
  | Pending req w k => Pending req w (λ o w', task_finally (k o w') fin)
  end.

#[export] Instance M_ret : MRet M := λ A a w, Settled (Normal a) w.
#[export] Instance M_bind : MBind M := λ A B f m w, task_bind (m w) f.

Definition throw {A} (e : AxiosError) : M A := λ w, Settled (Throw e) w.
Definition try_catch {A} (m : M A) (h : AxiosError → M A) : M A :=
  λ w, task_catch (m w) h.
Definition try_finally {A} (m : M A) (fin : M unit) : M A :=
  λ w, task_finally (m w) fin.

Definition modify (f : World → World) : M unit :=
  λ w, Settled (Normal ()) (f w).
Definition read {A} (f : World → A) : M A :=
  λ w, Settled (Normal (f w)) w.

(** [await axios.post(url, data, { headers })] *)
Definition axios_post (u : jsstring) (d : Body)
    (headers : gmap (list N) (list N)) : M ResponseData :=
  λ w, Pending (mkRequest u d headers) w
         (λ o w', match o with
                  | Fulfilled r => Settled (Normal r) w'
                  | Rejected e => Settled (Throw e) w'
                  end).

(** *** State setters and ambient calls *)

Definition setUrl (v : jsstring) : M unit :=
  modify (λ w, mkWorld v (transcript w) (summary w) (enrichment w)
                 (loading w) (isUpgradeModalOpen w) (proKey w)
                 (localStorage w) (toasts w)).
Definition setTranscript (v : jsstring) : M unit :=
  modify (λ w, mkWorld (url w) v (summary w) (enrichment w)
                 (loading w) (isUpgradeModalOpen w) (proKey w)
                 (localStorage w) (toasts w)).
Definition setSummary (v : jsstring) : M unit :=
  modify (λ w, mkWorld (url w) (transcript w) v (enrichment w)
                 (loading w) (isUpgradeModalOpen w) (proKey w)
                 (localStorage w) (toasts w)).
Definition setEnrichment (v : jsstring) : M unit :=
  modify (λ w, mkWorld (url w) (transcript w) (summary w) v
                 (loading w) (isUpgradeModalOpen w) (proKey w)
                 (localStorage w) (toasts w)).
(** [setLoading(f)] with a functional update. *)
Definition setLoading (f : gmap (list N) bool → gmap (list N) bool) : M unit :=
  modify (λ w, mkWorld (url w) (transcript w) (summary w) (enrichment w)
                 (f (loading w)) (isUpgradeModalOpen w) (proKey w)
                 (localStorage w) (toasts w)).
Definition setIsUpgradeModalOpen (v : bool) : M unit :=
  modify (λ w, mkWorld (url w) (transcript w) (summary w) (enrichment w)
                 (loading w) v (proKey w)
                 (localStorage w) (toasts w)).
Definition setProKey (v : option jsstring) : M unit :=
  modify (λ w, mkWorld (url w) (transcript w) (summary w) (enrichment w)
                 (loading w) (isUpgradeModalOpen w) v
                 (localStorage w) (toasts w)).
Definition localStorage_setItem (key value : jsstring) : M unit :=
  modify (λ w, mkWorld (url w) (transcript w) (summary w) (enrichment w)
                 (loading w) (isUpgradeModalOpen w) (proKey w)
                 (<[key := value]> (localStorage w)) (toasts w)).
Definition localStorage_getItem (key : jsstring) : M (option jsstring) :=
  read (λ w, localStorage w !! key).
Definition toast (t : Toast) : M unit :=
  modify (λ w, mkWorld (url w) (transcript w) (summary w) (enrichment w)
                 (loading w) (isUpgradeModalOpen w) (proKey w)
                 (localStorage w) (toasts w ++ [t])).
Definition toast_success (msg : jsstring) : M unit := toast (ToastSuccess msg).
Definition toast_error (msg : jsstring) : M unit := toast (ToastError msg).

(** ** The [App] component *)

Section App.

(** [process.env.REACT_APP_BACKEND_URL], fixed at build time. *)
Variable BACKEND_URL : jsstring.

Definition API : jsstring := BACKEND_URL ++ lit "/api".
Definition PRO_KEY_STORAGE_NAME : jsstring := lit "yt-ai-pro-key".
Definition MOCK_PRO_KEY : jsstring :=
  lit "mngBt-Pr0-2025-a1c2d3e4f5g6h7i8j9k0-z9y8x7w6v5u4".

(** The notification texts; letters outside ASCII are given by their
    code unit. *)
Definition MSG_UPGRADED : jsstring :=
  lit "Upgrade Pro ativado! Voc" ++ [234] ++ lit " j" ++ [225] ++
  lit " pode usar ilimitadamente.".
Definition MSG_LIMIT : jsstring :=
  lit "Limite de uso excedido. Fa" ++ [231] ++ lit "a upgrade!".
Definition MSG_ERROR (action : jsstring) : jsstring :=
  lit "Erro ao executar " ++ action.
Definition MSG_NEED_URL : jsstring := lit "Por favor, insira uma URL do YouTube".
Definition MSG_NEED_TRANSCRIPT : jsstring :=
  lit "Primeiro obtenha a transcri" ++ [231; 227] ++ lit "o do v" ++ [237] ++
  lit "deo".
Definition MSG_TRANSCRIBED : jsstring :=
  lit "Transcri" ++ [231; 227] ++ lit "o conclu" ++ [237] ++
  lit "da com sucesso!".
Definition MSG_SUMMARIZED : jsstring := lit "Resumo gerado com sucesso!".
Definition MSG_ENRICHED : jsstring :=
  lit "Conte" ++ [250] ++ lit "do aprimorado com sucesso!".

(** The state of the first render and the browser storage it starts in. *)
Definition initial (storage : gmap (list N) (list N)) : World :=
  {| url := []; transcript := []; summary := []; enrichment := [];
     loading := {[ lit "transcribe" := false; lit "summarize" := false;
                   lit "enrich" := false ]};
     isUpgradeModalOpen := false; proKey := None;
     localStorage := storage; toasts := [] |}.

(** The mount effect: loads the PRO key from [localStorage]. *)
Definition loadProKey : M unit :=
  storedKey ← localStorage_getItem PRO_KEY_STORAGE_NAME;
  if truthy_opt storedKey then setProKey storedKey else mret ().

Definition setLoadingState (action : jsstring) (state : bool) : M unit :=
  setLoading (λ prev, <[action := state]> prev).

Definition buyProVersion (secretKey : jsstring) : M unit :=
  localStorage_setItem PRO_KEY_STORAGE_NAME MOCK_PRO_KEY;;
  setProKey (Some MOCK_PRO_KEY);;
  setIsUpgradeModalOpen false;;
  toast_success MSG_UPGRADED.

(** The handlers close over the state of the render they belong to.  They
    read it only in their synchronous prefix, before any setter touches
    the variable read, so reading the world there gives the closed-over
    value. *)
Definition handleApiCall (endpoint : jsstring) (d : Body)
    (action : jsstring) : M ResponseData :=
  setLoadingState action true;;
  key ← read proKey;
  let headers : gmap (list N) (list N) :=
    match key with
    | Some k => if truthy k then <[lit "X-PRO-KEY" := k]> ∅ else ∅
    | None => ∅
    end in
  try_finally
    (try_catch
       (r ← axios_post (API ++ endpoint) d headers; mret r)
       (λ error,
          (if status_is_429 error then
             setIsUpgradeModalOpen true;;
             toast_error (or_default (error_detail error) MSG_LIMIT)
           else
             toast_error (or_default (error_detail error) (MSG_ERROR action)));;
          throw error))
    (setLoadingState action false).

Definition handleTranscribe : M unit :=
  u ← read url;
  if negb (truthy (trim u)) then
    toast_error MSG_NEED_URL
  else
    setSummary [];;
    setEnrichment [];;
    try_catch
      (d ← handleApiCall (lit "/videos/transcribe") (BodyUrl u)
             (lit "transcribe");
       setTranscript (data_transcript d);;
       toast_success MSG_TRANSCRIBED)
      (λ error, mret ()).

Definition handleSummarize : M unit :=
  t ← read transcript;
  if negb (truthy (trim t)) then
    toast_error MSG_NEED_TRANSCRIPT
  else
    try_catch
      (d ← handleApiCall (lit "/videos/summarize") (BodyText t)
             (lit "summarize");
       setSummary (data_result d);;
       toast_success MSG_SUMMARIZED)
      (λ error, mret ()).

Definition handleEnrich : M unit :=
  t ← read transcript;
  if negb (truthy (trim t)) then
    toast_error MSG_NEED_TRANSCRIPT
  else
    try_catch
      (d ← handleApiCall (lit "/videos/enrich") (BodyText t)
             (lit "enrich");
       setEnrichment (data_result d);;
       toast_success MSG_ENRICHED)
      (λ error, mret ()).

(** *** The three stages *)

Inductive Stage := Transcribe | Summarize | Enrich.

(** The [action] string each handler passes to [handleApiCall]. *)
Definition stage_id (s : Stage) : jsstring :=
  match s with
  | Transcribe => lit "transcribe"
  | Summarize => lit "summarize"
  | Enrich => lit "enrich"
  end.

Definition handler (s : Stage) : M unit :=
  match s with
  | Transcribe => handleTranscribe
  | Summarize => handleSummarize
  | Enrich => handleEnrich
  end.

(** The state variable a handler tests before anything else. *)
Definition stage_input (s : Stage) (w : World) : jsstring :=
  match s with
  | Transcribe => url w
  | Summarize | Enrich => transcript w
  end.

(** The message of the handler's early [return]. *)
Definition stage_refusal (s : Stage) : jsstring :=
  match s with
  | Transcribe => MSG_NEED_URL
  | Summarize | Enrich => MSG_NEED_TRANSCRIPT
  end.

(** The state variable a handler assigns on success, the property of
    [response.data] it assigns, and the message it shows. *)
Definition stage_field (s : Stage) (w : World) : jsstring :=
  match s with
  | Transcribe => transcript w
  | Summarize => summary w
  | Enrich => enrichment w
  end.

Definition stage_payload (s : Stage) (d : ResponseData) : jsstring :=
  match s with
  | Transcribe => data_transcript d
  | Summarize | Enrich => data_result d
  end.

Definition stage_success (s : Stage) : jsstring :=
  match s with
  | Transcribe => MSG_TRANSCRIBED
  | Summarize => MSG_SUMMARIZED
  | Enrich => MSG_ENRICHED
  end.

(** Writing [v] into the field of stage [s] of a PipelineState triple. *)
Definition store (s : Stage) (v : jsstring)
    (p : jsstring * jsstring * jsstring) : jsstring * jsstring * jsstring :=
  match s, p with
  | Transcribe, (_, su, en) => (v, su, en)
  | Summarize, (tr, _, en) => (tr, v, en)
  | Enrich, (tr, su, _) => (tr, su, v)
  end.

(** The world after one more notification and nothing else. *)
Definition notified (t : Toast) (w : World) : World :=
  mkWorld (url w) (transcript w) (summary w) (enrichment w) (loading w)
    (isUpgradeModalOpen w) (proKey w) (localStorage w) (toasts w ++ [t]).

(** The headers [handleApiCall] builds for a given [proKey]. *)
Definition headers_for (key : option jsstring) : gmap (list N) (list N) :=
  match key with
  | Some k => if truthy k then <[lit "X-PRO-KEY" := k]> ∅ else ∅
  | None => ∅
  end.

(** The world after [setLoadingState action b] and nothing else. *)
Definition with_loading (action : jsstring) (b : bool) (w : World) : World :=
  mkWorld (url w) (transcript w) (summary w) (enrichment w)
    (<[action := b]> (loading w))
    (isUpgradeModalOpen w) (proKey w) (localStorage w) (toasts w).

(** The world after [setIsUpgradeModalOpen b] and nothing else. *)
Definition with_modal (b : bool) (w : World) : World :=
  mkWorld (url w) (transcript w) (summary w) (enrichment w) (loading w)
    b (proKey w) (localStorage w) (toasts w).

(** The world with a given PipelineState and nothing else changed. *)
Definition with_pipeline (p : jsstring * jsstring * jsstring)
    (w : World) : World :=
  mkWorld (url w) p.1.1 p.1.2 p.2 (loading w)
    (isUpgradeModalOpen w) (proKey w) (localStorage w) (toasts w).

(** What a handler does to PipelineState before it calls
    [handleApiCall]: [handleTranscribe] empties the two derived fields. *)
Definition stage_entry (s : Stage)
    (p : jsstring * jsstring * jsstring) : jsstring * jsstring * jsstring :=
  match s with
  | Transcribe => (p.1.1, [], [])
  | Summarize | Enrich => p
  end.

Definition stage_endpoint (s : Stage) : jsstring :=
  match s with
  | Transcribe => lit "/videos/transcribe"
  | Summarize => lit "/videos/summarize"
  | Enrich => lit "/videos/enrich"
  end.

Definition stage_body (s : Stage) (w : World) : Body :=
  match s with
  | Transcribe => BodyUrl (url w)
  | Summarize | Enrich => BodyText (transcript w)
  end.

(** The text of the error notification of [handleApiCall]. *)
Definition failure_msg (action : jsstring) (error : AxiosError) : jsstring :=
  or_default (error_detail error)
    (if status_is_429 error then MSG_LIMIT else MSG_ERROR action).

(** The world once [handleApiCall] has handled a rejection. *)
Definition after_failure (action : jsstring) (error : AxiosError)
    (w : World) : World :=
  with_loading action false
    (notified (ToastError (failure_msg action error))
       (if status_is_429 error then with_modal true w else w)).

(** The world once a handler has handled a fulfilled call. *)
Definition after_success (s : Stage) (d : ResponseData) (w : World) : World :=
  notified (ToastSuccess (stage_success s))
    (with_pipeline (store s (stage_payload s d) (pipeline w))
       (with_loading (stage_id s) false w)).

(** *** The event loop

    One thread handles user events and network completions one at a time.
    A handler that suspends leaves its continuation among the calls in
    flight; a completion resumes one of them on the current world. *)

Record Sys := mkSys {
  world : World;
  inflight : list (Outcome → World → Task unit);
  sent : list Request
}.

Inductive Event :=
| EvChangeUrl (v : jsstring)
| EvClick (s : Stage)
| EvUpgrade (secretKey : jsstring)
| EvCloseDialog
| EvResponse (i : nat) (o : Outcome).

Definition absorb (t : Task unit)
    (calls : list (Outcome → World → Task unit)) (log : list Request) : Sys :=
  match t with
  | Settled _ w => mkSys w calls log
  | Pending req w k => mkSys w (calls ++ [k]) (log ++ [req])
  end.

Definition step (s : Sys) (ev : Event) : Sys :=
  match ev with
  | EvChangeUrl v => absorb (setUrl v (world s)) (inflight s) (sent s)
  | EvClick st => absorb (handler st (world s)) (inflight s) (sent s)
  | EvUpgrade secretKey =>
      absorb (buyProVersion secretKey (world s)) (inflight s) (sent s)
  | EvCloseDialog =>
      absorb (setIsUpgradeModalOpen false (world s)) (inflight s) (sent s)
  | EvResponse i o =>
      match inflight s !! i with
      | Some k => absorb (k o (world s)) (delete i (inflight s)) (sent s)
      | None => s
      end
  end.

Definition run (evs : list Event) (s : Sys) : Sys := foldl step s evs.

(** The application once mounted on a given browser storage. *)
Definition start (storage : gmap (list N) (list N)) : Sys :=
  absorb (loadProKey (initial storage)) [] [].

Definition is_upgrade (ev : Event) : bool :=
  match ev with EvUpgrade _ => true | _ => false end.

(** A continuation that settles at once and leaves [proKey] alone. *)
Definition keeps_proKey (k : Outcome → World → Task unit) : Prop :=
  ∀ o w, ∃ c w', k o w = Settled c w' ∧ proKey w' = proKey w.

(** A task started with [proKey] equal to [key]: it leaves the world with
    [proKey] equal to [key'], any request it issues carries the headers
    for [key], and its continuation leaves [proKey] alone. *)
Definition behaved (key key' : option jsstring) (t : Task unit) : Prop :=
  match t with
  | Settled _ w' => proKey w' = key'
  | Pending req w' k =>
      proKey w' = key' ∧ req_headers req = headers_for key ∧ keeps_proKey k
  end.

(** The world once [buyProVersion] has run. *)
Definition upgraded (w : World) : World :=
  mkWorld (url w) (transcript w) (summary w) (enrichment w) (loading w)
    false (Some MOCK_PRO_KEY)
    (<[PRO_KEY_STORAGE_NAME := MOCK_PRO_KEY]> (localStorage w))
    (toasts w ++ [ToastSuccess MSG_UPGRADED]).

(** *** Sample inputs *)

Definition sample_world : World :=
  {| url := lit "https://youtu.be/abc";
     transcript := lit "hello world";
     summary := lit "old summary";
     enrichment := lit "old enrichment";
     loading := loading (initial ∅);
     isUpgradeModalOpen := false; proKey := None;
     localStorage := ∅; toasts := [] |}.

(** A world whose URL field and transcript hold one space each. *)
Definition blank_world : World :=
  {| url := [32]; transcript := [32]; summary := []; enrichment := [];
     loading := loading (initial ∅);
     isUpgradeModalOpen := false; proKey := None;
     localStorage := ∅; toasts := [] |}.

Definition sample_data : ResponseData :=
  {| data_transcript := lit "hello world"; data_result := lit "summary text" |}.

Definition error_429 : AxiosError :=
  mkAxiosError
    (Some (mkErrorResponse 429 (Some (mkErrorData (Some (lit "limit reached")))))).

Definition error_500 : AxiosError :=
  mkAxiosError (Some (mkErrorResponse 500 (Some (mkErrorData None)))).

End App.

Definition sample_backend : jsstring := lit "http://localhost:8000".

(** ** Continuations of the stage handlers *)

#[export] Instance Stage_eq_dec : EqDecision Stage.
Proof. solve_decision. Defined.

(** [k] is what a handler of stage [s] leaves in flight: resumed, it
    settles normally in the world [after_success] or [after_failure]
    describes. *)
Definition stage_cont (s : Stage) (k : Outcome → World → Task unit) : Prop :=
  (∀ d w, k (Fulfilled d) w = Settled (Normal ()) (after_success s d w)) ∧
  (∀ e w, k (Rejected e) w =
          Settled (Normal ()) (after_failure (stage_id s) e w)).

(** Every call in flight was left there by one of the three handlers. *)
Definition wf (s : Sys) : Prop :=
  Forall (λ k, ∃ st, stage_cont st k) (inflight s).

Definition is_click (ev : Event) : bool :=
  match ev with EvClick _ => true | _ => false end.

(** A completion that reports quota exhaustion. *)
Definition is_quota_response (ev : Event) : bool :=
  match ev with
  | EvResponse _ (Rejected e) => status_is_429 e
  | _ => false
  end.

(** The world after [setUrl v] and nothing else. *)
Definition with_url (v : jsstring) (w : World) : World :=
  mkWorld v (transcript w) (summary w) (enrichment w) (loading w)
    (isUpgradeModalOpen w) (proKey w) (localStorage w) (toasts w).

(** ** [formatMarkdown]

    Each [text.replace(/re/g, template)] is a left-to-right scan: where the
    expression matches at the current position the template is emitted
    with [$1] filled in and the scan resumes after the match, otherwise
    one code unit is copied.  A matcher is given the rest of the input and
    returns the capture and the length of the match.  All six expressions
    match at least one code unit. *)

(** What [.] does not match (no [s] flag). *)
Definition is_line_terminator (c : N) : bool :=
  (c =? 10) || (c =? 13) || (c =? 8232) || (c =? 8233).

Fixpoint strip_prefix (p s : jsstring) : option jsstring :=
  match p with
  | [] => Some s
  | a :: p' =>
      match s with
      | b :: s' => if a =? b then strip_prefix p' s' else None
      | [] => None
      end
  end.

(** A greedy capture of any characters at the end of an expression. *)
Fixpoint dot_star (s : jsstring) : jsstring :=
  match s with
  | [] => []
  | c :: s' => if is_line_terminator c then [] else c :: dot_star s'
  end.

(** A lazy capture of any characters followed by the literal [delim]:
    the shortest run of [.] after which [delim] stands. *)
Fixpoint lazy_until (delim s : jsstring) : option jsstring :=
  match strip_prefix delim s with
  | Some _ => Some []
  | None =>
      match s with
      | [] => None
      | c :: s' =>
          if is_line_terminator c then None
          else cons c <$> lazy_until delim s'
      end
  end.

(** A lazy capture of any characters followed by the lookahead for a
    line feed or the end of the input. *)
Fixpoint lazy_until_eol (s : jsstring) : option jsstring :=
  match s with
  | [] => Some []
  | c :: s' =>
      if c =? 10 then Some []
      else if is_line_terminator c then None
      else cons c <$> lazy_until_eol s'
  end.

(** First expression: two hashes and a space, then a greedy capture. *)
Definition match_h2 (s : jsstring) : option (jsstring * nat) :=
  r ← strip_prefix (lit "## ") s;
  Some (dot_star r, (3 + length (dot_star r))%nat).

(** Second expression: three hashes and a space, then a greedy capture. *)
Definition match_h3 (s : jsstring) : option (jsstring * nat) :=
  r ← strip_prefix (lit "### ") s;
  Some (dot_star r, (4 + length (dot_star r))%nat).

(** Third expression: a lazy capture between double asterisks. *)
Definition match_strong (s : jsstring) : option (jsstring * nat) :=
  r ← strip_prefix (lit "**") s;
  cap ← lazy_until (lit "**") r;
  Some (cap, (4 + length cap)%nat).

(** Fourth expression: a lazy capture between single asterisks. *)
Definition match_em (s : jsstring) : option (jsstring * nat) :=
  r ← strip_prefix (lit "*") s;
  cap ← lazy_until (lit "*") r;
  Some (cap, (2 + length cap)%nat).

(** Fifth expression: a hyphen and a space, then a lazy capture up to a
    line feed or the end of the input. *)
Definition match_li (s : jsstring) : option (jsstring * nat) :=
  r ← strip_prefix (lit "- ") s;
  cap ← lazy_until_eol r;
  Some (cap, (2 + length cap)%nat).

(** Sixth expression: a line feed. *)
Definition match_nl (s : jsstring) : option (jsstring * nat) :=
  match s with
  | c :: _ => if c =? 10 then Some ([], 1%nat) else None
  | [] => None
  end.

Definition tmpl_h2 (cap : jsstring) : jsstring :=
  lit "<h2 class=" ++ [34] ++ lit "text-xl font-bold text-cyan-400 mb-3 mt-6" ++
  [34] ++ lit ">" ++ cap ++ lit "</h2>".
Definition tmpl_h3 (cap : jsstring) : jsstring :=
  lit "<h3 class=" ++ [34] ++
  lit "text-lg font-semibold text-pink-400 mb-2 mt-4" ++
  [34] ++ lit ">" ++ cap ++ lit "</h3>".
Definition tmpl_strong (cap : jsstring) : jsstring :=
  lit "<strong class=" ++ [34] ++ lit "text-cyan-300" ++ [34] ++ lit ">" ++
  cap ++ lit "</strong>".
Definition tmpl_em (cap : jsstring) : jsstring :=
  lit "<em class=" ++ [34] ++ lit "text-pink-300" ++ [34] ++ lit ">" ++
  cap ++ lit "</em>".
Definition tmpl_li (cap : jsstring) : jsstring :=
  lit "<li class=" ++ [34] ++ lit "ml-4 text-gray-300" ++ [34] ++ lit ">" ++
  [8226] ++ lit " " ++ cap ++ lit "</li>".
Definition tmpl_br (cap : jsstring) : jsstring := lit "<br/>".

(** The scan; [skip] code units of the input belong to a match already
    replaced. *)
Fixpoint replace_go (m : jsstring → option (jsstring * nat))
    (tmpl : jsstring → jsstring) (s : jsstring) (skip : nat) : jsstring :=
  match s with
  | [] => []
  | c :: s' =>
      match skip with
      | S n => replace_go m tmpl s' n
      | O =>
          match m s with
          | Some (cap, len) => tmpl cap ++ replace_go m tmpl s' (pred len)
          | None => c :: replace_go m tmpl s' O
          end
      end
  end.

Definition replace_all (m : jsstring → option (jsstring * nat))
    (tmpl : jsstring → jsstring) (s : jsstring) : jsstring :=
  replace_go m tmpl s O.

Definition formatMarkdown (text : jsstring) : jsstring :=
  if negb (truthy text) then []
  else
    replace_all match_nl tmpl_br
      (replace_all match_li tmpl_li
         (replace_all match_em tmpl_em
            (replace_all match_strong tmpl_strong
               (replace_all match_h3 tmpl_h3
                  (replace_all match_h2 tmpl_h2 text))))).

(** No hyphen is directly followed by a space. *)
Fixpoint dash_space_free (s : jsstring) : bool :=
  match s with
  | [] => true
  | c :: s' =>
      match s' with
      | c' :: _ => negb ((c =? 45) && (c' =? 32))
      | [] => true
      end && dash_space_free s'
  end.

(** Text in which no expression of [formatMarkdown] can match. *)
Definition plain (s : jsstring) : Prop :=
  Forall (λ c, c ≠ 35 ∧ c ≠ 42 ∧ c ≠ 10) s ∧ dash_space_free s = true.

(** ** The handlers on dynamically typed data

    What comes from the network is not checked by the code: [response.data]
    and the body of an error response are any JSON values, and
    [setTranscript(data.transcript)] stores whatever the property holds.
    This second embedding of the same handlers keeps those values as they
    are, so that a state variable may hold something that is not a string
    and a [TypeError] can be raised.  The URL stays a string: it only ever
    comes from the input field. *)

Module Dyn.

#[local] Set Warnings "-register-all".

Inductive JsValue :=
| JUndefined
| JNull
| JBool (b : bool)
| JNumber (n : Z)
| JString (s : jsstring)
| JArray (items : list JsValue)
| JObject (fields : list (jsstring * JsValue)).

(** Truthiness; a number is an integer here, which is all the code can
    tell apart (zero from non-zero). *)
Definition js_truthy (v : JsValue) : bool :=
  match v with
  | JUndefined | JNull => false
  | JBool b => b
  | JNumber n => negb (n =? 0)%Z
  | JString s => truthy s
  | JArray _ | JObject _ => true
  end.

Record ErrorResponse := mkErrorResponse { status : N; data : JsValue }.
Record AxiosError := mkAxiosError { response : option ErrorResponse }.

Inductive JsError :=
| ErrAxios (e : AxiosError)
| ErrType.

Inductive Completion (A : Type) :=
| Normal (a : A)
| Throw (e : JsError).
Arguments Normal {A} a.
Arguments Throw {A} e.

(** The own property [key] of an object; of two entries with one name the
    later stands, as in [JSON.parse]. *)
Fixpoint own_property (key : jsstring) (fields : list (jsstring * JsValue))
    : option JsValue :=
  match fields with
  | [] => None
  | (k, v) :: rest =>
      match own_property key rest with
      | Some v' => Some v'
      | None => if decide (k = key) then Some v else None
      end
  end.

(** [v.key] for the property names the code reads ([transcript],
    [result], [detail]), none of which is a built-in property of any
    value. *)
Definition get_property (v : JsValue) (key : jsstring) : Completion JsValue :=
  match v with
  | JUndefined | JNull => Throw ErrType
  | JObject fields => Normal (default JUndefined (own_property key fields))
  | JBool _ | JNumber _ | JString _ | JArray _ => Normal JUndefined
  end.

(** [v?.key] *)
Definition get_optional (v : JsValue) (key : jsstring) : JsValue :=
  match v with
  | JObject fields => default JUndefined (own_property key fields)
  | _ => JUndefined
  end.

(** [v.trim()]: only a string has the method. *)
Definition call_trim (v : JsValue) : Completion jsstring :=
  match v with
  | JString s => Normal (trim s)
  | _ => Throw ErrType
  end.

Inductive Toast :=
| ToastSuccess (msg : jsstring)
| ToastError (msg : JsValue).

Inductive Body :=
| BodyUrl (u : jsstring)
| BodyText (text : JsValue).

Record Request := mkRequest {
  req_url : jsstring;
  req_data : Body;
  req_headers : gmap (list N) (list N)
}.

Inductive Outcome :=
| Fulfilled (d : JsValue)
| Rejected (e : AxiosError).

Record World := mkWorld {
  url : jsstring;
  transcript : JsValue;
  summary : JsValue;
  enrichment : JsValue;
  loading : gmap (list N) bool;
  isUpgradeModalOpen : bool;
  proKey : option jsstring;
  localStorage : gmap (list N) (list N);
  toasts : list Toast
}.

Inductive Task (A : Type) :=
| Settled (c : Completion A) (w : World)
| Pending (req : Request) (w : World) (k : Outcome → World → Task A).
Arguments Settled {A} c w.
Arguments Pending {A} req w k.

Definition M (A : Type) : Type := World → Task A.

Fixpoint task_bind {A B} (t : Task A) (f : A → M B) : Task B :=
  match t with
  | Settled (Normal a) w => f a w
  | Settled (Throw e) w => Settled (Throw e) w
  | Pending req w k => Pending req w (λ o w', task_bind (k o w') f)
  end.

Fixpoint task_catch {A} (t : Task A) (h : JsError → M A) : Task A :=
  match t with
  | Settled (Normal a) w => Settled (Normal a) w
  | Settled (Throw e) w => h e w
  | Pending req w k => Pending req w (λ o w', task_catch (k o w') h)
  end.

Fixpoint task_finally {A} (t : Task A) (fin : M unit) : Task A :=
  match t with
  | Settled c w => task_bind (fin w) (λ _ w', Settled c w')
  | Pending req w k => Pending req w (λ o w', task_finally (k o w') fin)
  end.

#[export] Instance M_ret : MRet M := λ A a w, Settled (Normal a) w.
#[export] Instance M_bind : MBind M := λ A B f m w, task_bind (m w) f.

Definition throw {A} (e : JsError) : M A := λ w, Settled (Throw e) w.
(** An expression that may raise, evaluated in place. *)
Definition eval {A} (c : Completion A) : M A := λ w, Settled c w.
Definition try_catch {A} (m : M A) (h : JsError → M A) : M A :=
  λ w, task_catch (m w) h.
Definition try_finally {A} (m : M A) (fin : M unit) : M A :=
  λ w, task_finally (m w) fin.
Definition modify (f : World → World) : M unit :=
  λ w, Settled (Normal ()) (f w).
Definition read {A} (f : World → A) : M A :=
  λ w, Settled (Normal (f w)) w.

Definition axios_post (u : jsstring) (d : Body)
    (headers : gmap (list N) (list N)) : M JsValue :=
  λ w, Pending (mkRequest u d headers) w
         (λ o w', match o with
                  | Fulfilled r => Settled (Normal r) w'
                  | Rejected e => Settled (Throw (ErrAxios e)) w'
                  end).

Definition setTranscript (v : JsValue) : M unit :=
  modify (λ w, mkWorld (url w) v (summary w) (enrichment w)
                 (loading w) (isUpgradeModalOpen w) (proKey w)
                 (localStorage w) (toasts w)).
Definition setSummary (v : JsValue) : M unit :=
  modify (λ w, mkWorld (url w) (transcript w) v (enrichment w)
                 (loading w) (isUpgradeModalOpen w) (proKey w)
                 (localStorage w) (toasts w)).
Definition setEnrichment (v : JsValue) : M unit :=
  modify (λ w, mkWorld (url w) (transcript w) (summary w) v
                 (loading w) (isUpgradeModalOpen w) (proKey w)
                 (localStorage w) (toasts w)).
Definition setLoading (f : gmap (list N) bool → gmap (list N) bool) : M unit :=
  modify (λ w, mkWorld (url w) (transcript w) (summary w) (enrichment w)
                 (f (loading w)) (isUpgradeModalOpen w) (proKey w)
                 (localStorage w) (toasts w)).
Definition setIsUpgradeModalOpen (v : bool) : M unit :=
  modify (λ w, mkWorld (url w) (transcript w) (summary w) (enrichment w)
                 (loading w) v (proKey w)
                 (localStorage w) (toasts w)).
Definition toast (t : Toast) : M unit :=
  modify (λ w, mkWorld (url w) (transcript w) (summary w) (enrichment w)
                 (loading w) (isUpgradeModalOpen w) (proKey w)
                 (localStorage w) (toasts w ++ [t])).
Definition toast_success (msg : jsstring) : M unit := toast (ToastSuccess msg).
Definition toast_error (msg : JsValue) : M unit := toast (ToastError msg).

(** [error.response] of whatever was caught; a [TypeError] has none. *)
Definition response_of (error : JsError) : option ErrorResponse :=
  match error with
  | ErrAxios e => response e
  | ErrType => None
  end.

(** [error.response?.status === 429] *)
Definition status_is_429 (error : JsError) : bool :=
  match response_of error with
  | Some r => status r =? 429
  | None => false
  end.

(** [error.response?.data?.detail] *)
Definition error_detail (error : JsError) : JsValue :=
  match response_of error with
  | Some r => get_optional (data r) (lit "detail")
  | None => JUndefined
  end.

(** [v || dflt] with a string literal on the right. *)
Definition or_default (v : JsValue) (dflt : jsstring) : JsValue :=
  if js_truthy v then v else JString dflt.

Section App.

Variable BACKEND_URL : jsstring.

Definition setLoadingState (action : jsstring) (state : bool) : M unit :=
  setLoading (λ prev, <[action := state]> prev).

Definition handleApiCall (endpoint : jsstring) (d : Body)
    (action : jsstring) : M JsValue :=
  setLoadingState action true;;
  key ← read proKey;
  let headers : gmap (list N) (list N) :=
    match key with
    | Some k => if truthy k then <[lit "X-PRO-KEY" := k]> ∅ else ∅
    | None => ∅
    end in
  try_finally
    (try_catch
       (r ← axios_post (API BACKEND_URL ++ endpoint) d headers; mret r)
       (λ error,
          (if status_is_429 error then
             setIsUpgradeModalOpen true;;
             toast_error (or_default (error_detail error) MSG_LIMIT)
           else
             toast_error (or_default (error_detail error) (MSG_ERROR action)));;
          throw error))
    (setLoadingState action false).

Definition handleTranscribe : M unit :=
  u ← read url;
  if negb (truthy (trim u)) then
    toast_error (JString MSG_NEED_URL)
  else
    setSummary (JString []);;
    setEnrichment (JString []);;
    try_catch
      (d ← handleApiCall (lit "/videos/transcribe") (BodyUrl u)
             (lit "transcribe");
       v ← eval (get_property d (lit "transcript"));
       setTranscript v;;
       toast_success MSG_TRANSCRIBED)
      (λ error, mret ()).

Definition handleSummarize : M unit :=
  t ← read transcript;
  trimmed ← eval (call_trim t);
  if negb (truthy trimmed) then
    toast_error (JString MSG_NEED_TRANSCRIPT)
  else
    try_catch
      (d ← handleApiCall (lit "/videos/summarize") (BodyText t)
             (lit "summarize");
       v ← eval (get_property d (lit "result"));
       setSummary v;;
       toast_success MSG_SUMMARIZED)
      (λ error, mret ()).

Definition handleEnrich : M unit :=
  t ← read transcript;
  trimmed ← eval (call_trim t);
  if negb (truthy trimmed) then
    toast_error (JString MSG_NEED_TRANSCRIPT)
  else
    try_catch
      (d ← handleApiCall (lit "/videos/enrich") (BodyText t)
             (lit "enrich");
       v ← eval (get_property d (lit "result"));
       setEnrichment v;;
       toast_success MSG_ENRICHED)
      (λ error, mret ()).

Definition handler (s : Stage) : M unit :=
  match s with
  | Transcribe => handleTranscribe
  | Summarize => handleSummarize
  | Enrich => handleEnrich
  end.

End App.

(** The state variable a handler tests, as a value. *)
Definition stage_input (s : Stage) (w : World) : JsValue :=
  match s with
  | Transcribe => JString (url w)
  | Summarize | Enrich => transcript w
  end.

Definition stage_field (s : Stage) (w : World) : JsValue :=
  match s with
  | Transcribe => transcript w
  | Summarize => summary w
  | Enrich => enrichment w
  end.

(** A world in which a summary was asked for and a transcription is
    about to start. *)
Definition sample_world : World :=
  {| url := lit "https://youtu.be/abc";
     transcript := JString (lit "hello world");
     summary := JString []; enrichment := JString [];
     loading := {[ lit "transcribe" := false; lit "summarize" := false;
                   lit "enrich" := false ]};
     isUpgradeModalOpen := false; proKey := None;
     localStorage := ∅; toasts := [] |}.

End Dyn.

(** *** String-typed data seen as dynamically typed data *)

Definition dyn_toast (t : Toast) : Dyn.Toast :=
  match t with
  | ToastSuccess msg => Dyn.ToastSuccess msg
  | ToastError msg => Dyn.ToastError (Dyn.JString msg)
  end.

Definition dyn_world (w : World) : Dyn.World :=
  Dyn.mkWorld (url w) (Dyn.JString (transcript w)) (Dyn.JString (summary w))
    (Dyn.JString (enrichment w)) (loading w) (isUpgradeModalOpen w)
    (proKey w) (localStorage w) (dyn_toast <$> toasts w).

Definition dyn_body (b : Body) : Dyn.Body :=
  match b with
  | BodyUrl u => Dyn.BodyUrl u
  | BodyText text => Dyn.BodyText (Dyn.JString text)
  end.

Definition dyn_request (r : Request) : Dyn.Request :=
  Dyn.mkRequest (req_url r) (dyn_body (req_data r)) (req_headers r).

Definition dyn_data (d : ResponseData) : Dyn.JsValue :=
  Dyn.JObject [(lit "transcript", Dyn.JString (data_transcript d));
               (lit "result", Dyn.JString (data_result d))].

Definition dyn_error (e : AxiosError) : Dyn.AxiosError :=
  Dyn.mkAxiosError
    (r ← response e;
     Some (Dyn.mkErrorResponse (status r)
             match data r with
             | None => Dyn.JUndefined
             | Some {| detail := None |} => Dyn.JObject []
             | Some {| detail := Some text |} =>
                 Dyn.JObject [(lit "detail", Dyn.JString text)]
             end)).

Definition dyn_outcome (o : Outcome) : Dyn.Outcome :=
  match o with
  | Fulfilled d => Dyn.Fulfilled (dyn_data d)
  | Rejected e => Dyn.Rejected (dyn_error e)
  end.

(** * Properties *)

(** ** Trimming *)

Lemma trimStart_nil (s : jsstring) :
  trimStart s = [] ↔ Forall (λ c, is_trim_space c = true) s.
Proof.
  induction s as [|c s IH]; simpl.
  - split; [constructor | done].
  - destruct (is_trim_space c) eqn:Hc.
    + rewrite IH. split; [by constructor | by inversion 1].
    + split; [done | inversion 1; congruence].
Qed.

Lemma trimStart_head (s : jsstring) c s' :
  trimStart s = c :: s' → is_trim_space c = false.
Proof.
  induction s as [|c0 s IH]; simpl; [done|].
  destruct (is_trim_space c0) eqn:Hc; [done | congruence].
Qed.

(** [s.trim()] is empty exactly when [s] consists of white space. *)
Lemma trim_nil (s : jsstring) :
  trim s = [] ↔ Forall (λ c, is_trim_space c = true) s.
Proof.
  unfold trim, trimEnd. rewrite <- trimStart_nil. split.
  - intros H. apply (f_equal reverse) in H. rewrite reverse_involutive in H.
    simpl in H. apply trimStart_nil in H. rewrite Forall_reverse in H.
    destruct (trimStart s) as [|c s'] eqn:E; [done|].
    apply trimStart_head in E. inversion H; congruence.
  - intros ->. done.
Qed.

Lemma truthy_false (s : jsstring) : truthy s = false ↔ s = [].
Proof. by destruct s. Qed.

Lemma truthy_true (s : jsstring) : truthy s = true ↔ s ≠ [].
Proof. by destruct s. Qed.

(** ** Symbolic execution of the handlers *)

Ltac unfold_app :=
  unfold handler, handleTranscribe, handleSummarize, handleEnrich,
    handleApiCall, buyProVersion, loadProKey, setLoadingState, setLoading,
    setUrl, setTranscript, setSummary, setEnrichment, setIsUpgradeModalOpen,
    setProKey, toast_success, toast_error, toast, localStorage_setItem,
    localStorage_getItem, try_catch, try_finally, throw, axios_post,
    modify, read, mbind, mret, M_bind, M_ret;
  cbn [task_bind task_catch task_finally].

Ltac after_rejection e :=
  cbn [task_bind task_catch task_finally];
  unfold after_failure, failure_msg;
  destruct (status_is_429 e); reflexivity.

Section Handlers.

Variable BACKEND_URL : jsstring.

(** [handleApiCall] always suspends at the network call, with the flag of
    [action] raised; a fulfilled call returns the data, a rejected one
    rethrows the error, and either way the flag is lowered first. *)
Lemma handleApiCall_spec endpoint d action w :
  ∃ k, handleApiCall BACKEND_URL endpoint d action w =
         Pending (mkRequest (API BACKEND_URL ++ endpoint) d
                    (headers_for (proKey w)))
           (with_loading action true w) k ∧
       (∀ r w', k (Fulfilled r) w' =
                Settled (Normal r) (with_loading action false w')) ∧
       (∀ e w', k (Rejected e) w' =
                Settled (Throw e) (after_failure action e w')).
Proof.
  unfold_app. eexists. split; [reflexivity|]. split.
  - intros r w'. reflexivity.
  - intros e w'. after_rejection e.
Qed.

(** A handler whose input trims to nothing only notifies. *)
Lemma handler_refuses s w :
  truthy (trim (stage_input s w)) = false →
  handler BACKEND_URL s w =
    Settled (Normal ()) (notified (ToastError (stage_refusal s)) w).
Proof.
  intros H. destruct s; unfold_app; cbn [stage_input] in H; rewrite H;
    reflexivity.
Qed.

(** Otherwise it suspends at the network call and, resumed, completes
    normally whatever the outcome. *)
Lemma handler_calls s w :
  truthy (trim (stage_input s w)) = true →
  ∃ k, handler BACKEND_URL s w =
         Pending
           (mkRequest (API BACKEND_URL ++ stage_endpoint s) (stage_body s w)
              (headers_for (proKey w)))
           (with_loading (stage_id s) true
              (with_pipeline (stage_entry s (pipeline w)) w)) k ∧
       (∀ d w', k (Fulfilled d) w' =
                Settled (Normal ()) (after_success s d w')) ∧
       (∀ e w', k (Rejected e) w' =
                Settled (Normal ()) (after_failure (stage_id s) e w')).
Proof.
  intros H. destruct s; unfold_app; cbn [stage_input] in H; rewrite H;
    cbn [negb]; (eexists; split; [reflexivity|]; split;
      [ intros d w'; reflexivity | intros e w'; after_rejection e ]).
Qed.

Lemma buyProVersion_spec secretKey w :
  buyProVersion secretKey w = Settled (Normal ()) (upgraded w).
Proof. reflexivity. Qed.

(** *** What the resulting worlds look like *)

Lemma after_failure_loading action e w :
  loading (after_failure action e w) !! action = Some false.
Proof. unfold after_failure. cbn. apply lookup_insert_eq. Qed.

Lemma after_failure_pipeline action e w :
  pipeline (after_failure action e w) = pipeline w.
Proof. unfold after_failure. by destruct (status_is_429 e). Qed.

Lemma after_failure_proKey action e w :
  proKey (after_failure action e w) = proKey w.
Proof. unfold after_failure. by destruct (status_is_429 e). Qed.

Lemma after_failure_toasts action e w :
  toasts (after_failure action e w) =
  toasts w ++ [ToastError (failure_msg action e)].
Proof. unfold after_failure. by destruct (status_is_429 e). Qed.

Lemma after_failure_modal action e w :
  isUpgradeModalOpen (after_failure action e w) =
  if status_is_429 e then true else isUpgradeModalOpen w.
Proof. unfold after_failure. by destruct (status_is_429 e). Qed.

Lemma after_success_loading s d w :
  loading (after_success s d w) !! stage_id s = Some false.
Proof. unfold after_success. cbn. apply lookup_insert_eq. Qed.

Lemma after_success_pipeline s d w :
  pipeline (after_success s d w) = store s (stage_payload s d) (pipeline w).
Proof. by destruct s. Qed.

Lemma status_429 e : status <$> response e = Some 429 ↔ status_is_429 e = true.
Proof.
  unfold status_is_429. destruct (response e) as [r|]; cbn; [|done].
  rewrite N.eqb_eq. split; congruence.
Qed.

Lemma status_not_429 e :
  status <$> response e ≠ Some 429 ↔ status_is_429 e = false.
Proof. rewrite status_429. by destruct (status_is_429 e). Qed.

(** The text [handleApiCall] notifies, read off the error itself: the
    detail when the response has a body with a non-empty one, the fallback
    in every other case. *)
Lemma notified_text e fallback :
  or_default (error_detail e) fallback =
  match response e with
  | Some {| data := Some {| detail := Some (c :: dt) |} |} => c :: dt
  | _ => fallback
  end.
Proof. by destruct e as [[[st [[[[|c dt]|]]|]]|]]. Qed.

(** ** The claims about a single invocation *)

(** C1.  A stage invocation that passes its input test suspends at the
    network call with its loading flag set, and however the call ends
    (fulfilled or rejected, with any error) and whatever world it resumes
    in, it completes with its loading flag false. *)
Theorem loading_cleared_on_every_exit s w o w2 :
  truthy (trim (stage_input s w)) = true →
  ∃ req w1 k w3,
    handler BACKEND_URL s w = Pending req w1 k ∧
    loading w1 !! stage_id s = Some true ∧
    k o w2 = Settled (Normal ()) w3 ∧
    loading w3 !! stage_id s = Some false.
Proof.
  intros Hv. destruct (handler_calls s w Hv) as (k & Hk & Hok & Hko).
  destruct o as [d|e].
  - eexists _, _, k, (after_success s d w2).
    split_and!; [exact Hk | apply lookup_insert_eq | apply Hok
                | apply after_success_loading].
  - eexists _, _, k, (after_failure (stage_id s) e w2).
    split_and!; [exact Hk | apply lookup_insert_eq | apply Hko
                | apply after_failure_loading].
Qed.

(** C2.  When the call is rejected with status 429, [handleApiCall] opens
    the upgrade dialog, rethrows the very error it received, and leaves
    transcript, summary and enrichment as they were when the response
    arrived; the handler built on it ends in the same world.  The one
    notification raised is an error notification whose text is the
    detail of the response when its body has a non-empty one, and the
    quota text in every other case. *)
Theorem quota_exhaustion_opens_paywall s w endpoint d action e w2 :
  status <$> response e = Some 429 →
  truthy (trim (stage_input s w)) = true →
  (∃ req w1 k w3,
     handleApiCall BACKEND_URL endpoint d action w = Pending req w1 k ∧
     k (Rejected e) w2 = Settled (Throw e) w3 ∧
     isUpgradeModalOpen w3 = true ∧
     pipeline w3 = pipeline w2 ∧
     toasts w3 =
       toasts w2 ++
       [ToastError
          match response e with
          | Some {| data := Some {| detail := Some (c :: dt) |} |} => c :: dt
          | _ => lit "Limite de uso excedido. Fa" ++ [231] ++ lit "a upgrade!"
          end]) ∧
  (∃ req w1 k w3,
     handler BACKEND_URL s w = Pending req w1 k ∧
     k (Rejected e) w2 = Settled (Normal ()) w3 ∧
     isUpgradeModalOpen w3 = true ∧
     pipeline w3 = pipeline w2 ∧
     toasts w3 =
       toasts w2 ++
       [ToastError
          match response e with
          | Some {| data := Some {| detail := Some (c :: dt) |} |} => c :: dt
          | _ => lit "Limite de uso excedido. Fa" ++ [231] ++ lit "a upgrade!"
          end]).
Proof.
  intros He%status_429 Hv. split.
  - destruct (handleApiCall_spec endpoint d action w) as (k & Hk & _ & Hko).
    eexists _, _, k, (after_failure action e w2).
    rewrite after_failure_modal, after_failure_pipeline,
      after_failure_toasts. unfold failure_msg.
    rewrite He, notified_text. eauto.
  - destruct (handler_calls s w Hv) as (k & Hk & _ & Hko).
    eexists _, _, k, (after_failure (stage_id s) e w2).
    rewrite after_failure_modal, after_failure_pipeline,
      after_failure_toasts. unfold failure_msg.
    rewrite He, notified_text. eauto.
Qed.

(** C4.  A transcribe invocation whose URL passes the test has emptied
    summary and enrichment by the time it suspends at the network call;
    its continuation never writes them, so they are still empty when it
    completes, whatever the outcome. *)
Theorem transcribe_clears_derived_results w o :
  truthy (trim (url w)) = true →
  ∃ req w1 k w3,
    handleTranscribe BACKEND_URL w = Pending req w1 k ∧
    summary w1 = [] ∧ enrichment w1 = [] ∧
    k o w1 = Settled (Normal ()) w3 ∧
    summary w3 = [] ∧ enrichment w3 = [] ∧
    (∀ w2, ∃ w3', k o w2 = Settled (Normal ()) w3' ∧
                  summary w3' = summary w2 ∧ enrichment w3' = enrichment w2).
Proof.
  intros Hv. destruct (handler_calls Transcribe w Hv) as (k & Hk & Hok & Hko).
  cbn [handler] in Hk.
  assert (Hframe : ∀ w2, ∃ w3', k o w2 = Settled (Normal ()) w3' ∧
            summary w3' = summary w2 ∧ enrichment w3' = enrichment w2).
  { intros w2. destruct o as [d|e].
    - exists (after_success Transcribe d w2). by rewrite Hok.
    - exists (after_failure (stage_id Transcribe) e w2). rewrite Hko.
      pose proof (after_failure_pipeline (stage_id Transcribe) e w2) as Hp.
      unfold pipeline in Hp. by simplify_eq. }
  destruct (Hframe (with_loading (stage_id Transcribe) true
              (with_pipeline (stage_entry Transcribe (pipeline w)) w)))
    as (w3 & Hw3 & Hs & He).
  eexists _, _, k, w3. split_and!; try done.
Qed.

(** C5, as the code has it.  A handler refuses its input exactly when the
    input trims to the empty string, that is when it consists of white
    space only (the empty string included): [handleTranscribe] tests the
    URL, [handleSummarize] and [handleEnrich] the transcript.  A refusal
    settles at once, without a network call, in the world it started in
    plus one error notification; any other input reaches the call. *)
Theorem refusal_iff_blank_input s w :
  (handler BACKEND_URL s w =
     Settled (Normal ()) (notified (ToastError (stage_refusal s)) w)
   ↔ trim (stage_input s w) = []) ∧
  (trim (stage_input s w) = []
   ↔ Forall (λ c, is_trim_space c = true) (stage_input s w)) ∧
  ((∃ req w1 k, handler BACKEND_URL s w = Pending req w1 k)
   ↔ trim (stage_input s w) ≠ []).
Proof.
  split_and!; [| apply trim_nil |].
  - split.
    + intros H. apply truthy_false.
      destruct (truthy (trim (stage_input s w))) eqn:Hv; [|done].
      destruct (handler_calls s w Hv) as (k & Hk & _). congruence.
    + intros H%truthy_false. by apply handler_refuses.
  - split.
    + intros (req & w1 & k & H) Hnil%truthy_false.
      rewrite (handler_refuses s w Hnil) in H. discriminate.
    + intros H%truthy_true.
      destruct (handler_calls s w H) as (k & Hk & _). eauto.
Qed.

(** C6, as the code has it.  When the call is rejected with anything but
    status 429 (no response at all, or another status), [handleApiCall]
    raises one error notification, whose text is the detail of the
    response when its body has a non-empty one and [Erro ao executar]
    followed by the name of the stage in every other case, rethrows the
    error, and leaves
    the upgrade dialog and the three result fields as they were when the
    response arrived.  Over the whole invocation the transcript is kept,
    and so are summary and enrichment for summarize and enrich; a
    transcribe invocation has emptied them before the call. *)
Theorem other_failure_keeps_results s w e w2 :
  status <$> response e ≠ Some 429 →
  truthy (trim (stage_input s w)) = true →
  ∃ req w1 k w3 w3',
    handler BACKEND_URL s w = Pending req w1 k ∧
    pipeline w1 = stage_entry s (pipeline w) ∧
    k (Rejected e) w2 = Settled (Normal ()) w3 ∧
    pipeline w3 = pipeline w2 ∧
    isUpgradeModalOpen w3 = isUpgradeModalOpen w2 ∧
    toasts w3 =
      toasts w2 ++
      [ToastError
         match response e with
         | Some {| data := Some {| detail := Some (c :: dt) |} |} => c :: dt
         | _ => lit "Erro ao executar " ++ stage_id s
         end] ∧
    k (Rejected e) w1 = Settled (Normal ()) w3' ∧
    pipeline w3' = stage_entry s (pipeline w) ∧
    ∃ kc wc, handleApiCall BACKEND_URL (stage_endpoint s) (stage_body s w)
               (stage_id s) (with_pipeline (stage_entry s (pipeline w)) w) =
               Pending req w1 kc ∧
             kc (Rejected e) w2 = Settled (Throw e) wc ∧
             pipeline wc = pipeline w2 ∧
             isUpgradeModalOpen wc = isUpgradeModalOpen w2.
Proof.
  intros He%status_not_429 Hv.
  destruct (handler_calls s w Hv) as (k & Hk & _ & Hko).
  destruct (handleApiCall_spec (stage_endpoint s) (stage_body s w)
              (stage_id s) (with_pipeline (stage_entry s (pipeline w)) w))
    as (kc & Hkc & _ & Hkco).
  eexists _, _, k, (after_failure (stage_id s) e w2), _.
  split_and!; [exact Hk | by destruct s | apply Hko | | | | apply Hko | |].
  - apply after_failure_pipeline.
  - by rewrite after_failure_modal, He.
  - rewrite after_failure_toasts. unfold failure_msg.
    by rewrite He, notified_text.
  - rewrite after_failure_pipeline. by destruct s.
  - exists kc, (after_failure (stage_id s) e w2). split_and!; [exact Hkc | apply Hkco | |].
    + apply after_failure_pipeline.
    + by rewrite after_failure_modal, He.
Qed.

(** C7.  When the call is fulfilled, the handler writes the payload into
    the field of its own stage and into no other, and notifies success.
    No other path writes a result: the synchronous part before the call
    only applies [stage_entry], a rejected call leaves the three fields
    alone, and so does a refusal. *)
Theorem success_stores_result s w d w2 w0 :
  truthy (trim (stage_input s w)) = true →
  (∃ req w1 k w3,
     handler BACKEND_URL s w = Pending req w1 k ∧
     pipeline w1 = stage_entry s (pipeline w) ∧
     k (Fulfilled d) w2 = Settled (Normal ()) w3 ∧
     stage_field s w3 = stage_payload s d ∧
     pipeline w3 = store s (stage_payload s d) (pipeline w2) ∧
     toasts w3 = toasts w2 ++ [ToastSuccess (stage_success s)] ∧
     ∀ e, ∃ w3', k (Rejected e) w2 = Settled (Normal ()) w3' ∧
                 pipeline w3' = pipeline w2) ∧
  match handler BACKEND_URL s w0 with
  | Settled _ w0' => pipeline w0' = pipeline w0
  | Pending _ _ _ => True
  end.
Proof.
  intros Hv. split.
  - destruct (handler_calls s w Hv) as (k & Hk & Hok & Hko).
    eexists _, _, k, (after_success s d w2).
    split_and!; [exact Hk | by destruct s | apply Hok | by destruct s
                | apply after_success_pipeline | done |].
    intros e. exists (after_failure (stage_id s) e w2).
    split; [apply Hko | apply after_failure_pipeline].
  - destruct (truthy (trim (stage_input s w0))) eqn:Hv0.
    + by destruct (handler_calls s w0 Hv0) as (k & -> & _).
    + by rewrite (handler_refuses s w0 Hv0).
Qed.

(** In the string-typed embedding a handler never completes by throwing.
    It either settles normally at once, or suspends and then, on every
    outcome and in every world it resumes in, settles normally; after a
    rejected call the field of its stage is as it was at resumption.
    [handleApiCall] for its part rethrows every rejection. *)
Lemma string_typed_handlers_settle_normally s w :
  ((∃ w', handler BACKEND_URL s w = Settled (Normal ()) w') ∨
   (∃ req w1 k,
      handler BACKEND_URL s w = Pending req w1 k ∧
      ∀ o w2, ∃ w3,
        k o w2 = Settled (Normal ()) w3 ∧
        match o with
        | Rejected _ => stage_field s w3 = stage_field s w2
        | Fulfilled _ => True
        end)) ∧
  (∀ endpoint d action e w2, ∃ req w1 k w3,
      handleApiCall BACKEND_URL endpoint d action w = Pending req w1 k ∧
      k (Rejected e) w2 = Settled (Throw e) w3).
Proof.
  split.
  - destruct (truthy (trim (stage_input s w))) eqn:Hv.
    + right. destruct (handler_calls s w Hv) as (k & Hk & Hok & Hko).
      eexists _, _, k. split; [exact Hk|]. intros [d|e] w2.
      * exists (after_success s d w2). by rewrite Hok.
      * exists (after_failure (stage_id s) e w2). rewrite Hko. split; [done|].
        pose proof (after_failure_pipeline (stage_id s) e w2) as Hp.
        unfold pipeline in Hp. destruct s; cbn [stage_field]; congruence.
    + left. rewrite (handler_refuses s w Hv). eauto.
  - intros endpoint d action e w2.
    destruct (handleApiCall_spec endpoint d action w) as (k & Hk & _ & Hko).
    eexists _, _, k, _. split; [exact Hk | apply Hko].
Qed.

End Handlers.

(** ** The upgrade action *)

(** C8.  Running the upgrade action twice in a row leaves the storage,
    the in-memory key and the dialog flag, and every other state
    variable, as one run does.  (The second run notifies once more.) *)
Theorem grant_idempotent secretKey w :
  ∃ w1 w2,
    buyProVersion secretKey w = Settled (Normal ()) w1 ∧
    buyProVersion secretKey w1 = Settled (Normal ()) w2 ∧
    localStorage w2 = localStorage w1 ∧
    proKey w2 = proKey w1 ∧
    isUpgradeModalOpen w2 = isUpgradeModalOpen w1 ∧
    url w2 = url w1 ∧ pipeline w2 = pipeline w1 ∧ loading w2 = loading w1.
Proof.
  exists (upgraded w), (upgraded (upgraded w)).
  rewrite !buyProVersion_spec. split_and!; try done.
  cbn. apply insert_insert_eq.
Qed.

(** C9.  The upgrade action does not look at its argument: any two
    tokens give the same result, in which the storage slot and the
    in-memory key hold the constant [MOCK_PRO_KEY] and the dialog is
    closed. *)
Theorem upgrade_ignores_token t1 t2 w :
  buyProVersion t1 w = buyProVersion t2 w ∧
  ∃ w', buyProVersion t1 w = Settled (Normal ()) w' ∧
        localStorage w' !! PRO_KEY_STORAGE_NAME = Some MOCK_PRO_KEY ∧
        proKey w' = Some MOCK_PRO_KEY ∧
        isUpgradeModalOpen w' = false.
Proof.
  split; [reflexivity|]. exists (upgraded w).
  split_and!; try done. cbn. apply lookup_insert_eq.
Qed.

(** ** The entitlement header along a run of the event loop *)

Section EventLoop.

Variable BACKEND_URL : jsstring.

Lemma handler_behaved s w :
  behaved (proKey w) (proKey w) (handler BACKEND_URL s w).
Proof.
  destruct (truthy (trim (stage_input s w))) eqn:Hv.
  - destruct (handler_calls BACKEND_URL s w Hv) as (k & -> & Hok & Hko).
    split_and!; [done | done |]. intros [d|e] w2.
    + exists (Normal ()), (after_success s d w2). by rewrite Hok.
    + exists (Normal ()), (after_failure (stage_id s) e w2).
      rewrite Hko. split; [done | apply after_failure_proKey].
  - by rewrite (handler_refuses BACKEND_URL s w Hv).
Qed.

Lemma resumed_behaved k o w :
  keeps_proKey k → behaved (proKey w) (proKey w) (k o w).
Proof. intros Hk. by destruct (Hk o w) as (c & w' & -> & ?). Qed.

Lemma absorb_behaved key key' t calls log :
  behaved key key' t → Forall keeps_proKey calls →
  Forall keeps_proKey (inflight (absorb t calls log)) ∧
  proKey (world (absorb t calls log)) = key' ∧
  ∃ new, sent (absorb t calls log) = log ++ new ∧
         Forall (λ r, req_headers r = headers_for key) new.
Proof.
  intros Ht Hcalls. destruct t as [c w'|req w' k]; cbn in *.
  - split_and!; [done | done |]. exists []. by rewrite app_nil_r.
  - destruct Ht as (? & ? & ?). split_and!; [| done |].
    + apply Forall_app. by split; [|constructor].
    + exists [req]. by split; [|constructor].
Qed.

(** One event: requests go out with the headers for the key held before
    the event; the key changes only at an upgrade, to the constant. *)
Lemma step_spec s ev :
  Forall keeps_proKey (inflight s) →
  Forall keeps_proKey (inflight (step BACKEND_URL s ev)) ∧
  proKey (world (step BACKEND_URL s ev)) =
    (if is_upgrade ev then Some MOCK_PRO_KEY else proKey (world s)) ∧
  ∃ new, sent (step BACKEND_URL s ev) = sent s ++ new ∧
         Forall (λ r, req_headers r = headers_for (proKey (world s))) new.
Proof.
  intros Hinv. destruct ev as [v|st|secretKey| |i o]; cbn [step is_upgrade].
  - by apply absorb_behaved.
  - apply absorb_behaved; [apply handler_behaved | done].
  - by apply absorb_behaved.
  - by apply absorb_behaved.
  - destruct (inflight s !! i) as [k|] eqn:Hi.
    + apply absorb_behaved.
      * apply resumed_behaved.
        by apply (Forall_lookup_1 _ _ _ _ Hinv Hi).
      * by apply Forall_delete.
    + split_and!; [done | done |]. exists []. by rewrite app_nil_r.
Qed.

Lemma run_snoc evs ev s :
  run BACKEND_URL (evs ++ [ev]) s =
  step BACKEND_URL (run BACKEND_URL evs s) ev.
Proof. unfold run. by rewrite foldl_app. Qed.

Lemma run_keeps_invariant evs s :
  Forall keeps_proKey (inflight s) →
  Forall keeps_proKey (inflight (run BACKEND_URL evs s)).
Proof.
  revert s. induction evs as [|ev evs IH]; intros s Hinv; [done|].
  cbn. apply IH. by apply step_spec.
Qed.

(** A run during which the key stays [key]: either it holds the constant
    already, or no upgrade occurs. *)
Lemma run_fixed_key evs s key :
  Forall keeps_proKey (inflight s) →
  proKey (world s) = key →
  key = Some MOCK_PRO_KEY ∨ forallb (λ ev, negb (is_upgrade ev)) evs = true →
  proKey (world (run BACKEND_URL evs s)) = key ∧
  ∃ new, sent (run BACKEND_URL evs s) = sent s ++ new ∧
         Forall (λ r, req_headers r = headers_for key) new.
Proof.
  revert s. induction evs as [|ev evs IH]; intros s Hinv Hkey Hcase.
  - split; [done|]. exists []. by rewrite app_nil_r.
  - destruct (step_spec s ev Hinv) as (Hinv' & Hkey' & new1 & Hsent1 & Hnew1).
    assert (Hk1 : proKey (world (step BACKEND_URL s ev)) = key).
    { rewrite Hkey'. destruct (is_upgrade ev) eqn:Hup; [|done].
      destruct Hcase as [->|Hq]; [done|].
      cbn in Hq. rewrite Hup in Hq. done. }
    assert (Hcase' : key = Some MOCK_PRO_KEY ∨
                     forallb (λ ev, negb (is_upgrade ev)) evs = true).
    { destruct Hcase as [?|Hq]; [by left|]. right.
      cbn in Hq. by apply andb_prop in Hq as [_ ?]. }
    destruct (IH _ Hinv' Hk1 Hcase') as (Hfinal & new2 & Hsent2 & Hnew2).
    split; [exact Hfinal|]. exists (new1 ++ new2). split.
    + cbn. unfold run in Hsent2. rewrite Hsent2, Hsent1. by rewrite app_assoc.
    + apply Forall_app. split; [|done]. by rewrite <- Hkey.
Qed.

Lemma start_spec storage :
  inflight (start storage) = [] ∧ sent (start storage) = [] ∧
  proKey (world (start storage)) =
    (if truthy_opt (storage !! PRO_KEY_STORAGE_NAME)
     then storage !! PRO_KEY_STORAGE_NAME else None).
Proof.
  unfold start. unfold_app. cbn [initial localStorage].
  destruct (truthy_opt (storage !! PRO_KEY_STORAGE_NAME));
    repeat split; reflexivity.
Qed.

(** Once the key is the constant, every later request carries it. *)
Lemma upgrade_fixes_header s secretKey evs :
  Forall keeps_proKey (inflight s) →
  ∃ new,
    sent (run BACKEND_URL evs (step BACKEND_URL s (EvUpgrade secretKey))) =
      sent s ++ new ∧
    Forall (λ r, req_headers r = {[ lit "X-PRO-KEY" := MOCK_PRO_KEY ]}) new.
Proof.
  intros Hinv.
  destruct (step_spec s (EvUpgrade secretKey) Hinv)
    as (Hinv' & Hkey' & new1 & Hsent1 & _).
  destruct (run_fixed_key evs _ (Some MOCK_PRO_KEY) Hinv' Hkey')
    as (_ & new & Hsent & Hnew); [by left|].
  exists new. split; [|exact Hnew].
  by rewrite Hsent.
Qed.

(** Without an upgrade, every request carries the headers for whatever
    the storage slot held at start. *)
Lemma stored_key_is_sent storage evs :
  forallb (λ ev, negb (is_upgrade ev)) evs = true →
  Forall (λ r, req_headers r =
               headers_for (if truthy_opt (storage !! PRO_KEY_STORAGE_NAME)
                            then storage !! PRO_KEY_STORAGE_NAME else None))
    (sent (run BACKEND_URL evs (start storage))).
Proof.
  intros Hq. destruct (start_spec storage) as (Hin & Hsent & Hkey).
  destruct (run_fixed_key evs (start storage) _ ltac:(by rewrite Hin) Hkey)
    as (_ & new & Hs & Hnew); [by right|].
  by rewrite Hs, Hsent.
Qed.

(** C3, as the code has it.  Take the application at any point of any
    run, on any storage, run the upgrade action with any token and let
    any events happen: every request from then on carries exactly
    [X-PRO-KEY] with the constant [MOCK_PRO_KEY], whatever the token was.
    Before any upgrade, on a storage whose slot holds no non-empty key, no
    request carries a header. *)
Theorem entitlement_header_along_run storage' before secretKey evs
    storage quiet :
  (∃ new,
     sent (run BACKEND_URL evs
             (step BACKEND_URL (run BACKEND_URL before (start storage'))
                (EvUpgrade secretKey))) =
       sent (run BACKEND_URL before (start storage')) ++ new ∧
     Forall (λ r, req_headers r = {[ lit "X-PRO-KEY" := MOCK_PRO_KEY ]}) new) ∧
  (truthy_opt (storage !! PRO_KEY_STORAGE_NAME) = false →
   forallb (λ ev, negb (is_upgrade ev)) quiet = true →
   Forall (λ r, req_headers r = ∅)
     (sent (run BACKEND_URL quiet (start storage)))).
Proof.
  split.
  - apply upgrade_fixes_header, run_keeps_invariant.
    destruct (start_spec storage') as (-> & _). constructor.
  - intros Hnone Hq.
    pose proof (stored_key_is_sent storage quiet Hq) as H.
    by rewrite Hnone in H.
Qed.

End EventLoop.

(** * Scenarios *)

(** Empty URL: refused on the spot, nothing in flight, no flag touched. *)
Example scenario_empty_url :
  handleTranscribe sample_backend (initial ∅) =
  Settled (Normal ()) (notified (ToastError MSG_NEED_URL) (initial ∅)).
Proof. reflexivity. Qed.

(** A transcription that succeeds: one request to the transcribe endpoint,
    the flag up while in flight and down afterwards, the transcript stored,
    one success notification. *)
Example scenario_transcribe_success :
  ∃ w1 k w3,
    handleTranscribe sample_backend sample_world =
      Pending (mkRequest (lit "http://localhost:8000/api/videos/transcribe")
                 (BodyUrl (lit "https://youtu.be/abc")) ∅) w1 k ∧
    loading w1 !! lit "transcribe" = Some true ∧
    k (Fulfilled sample_data) w1 = Settled (Normal ()) w3 ∧
    transcript w3 = lit "hello world" ∧
    loading w3 !! lit "transcribe" = Some false ∧
    toasts w3 = [ToastSuccess MSG_TRANSCRIBED].
Proof.
  eexists _, _, _. split; [reflexivity|]. split; [by vm_compute|].
  split; [reflexivity|]. split_and!; [reflexivity | by vm_compute | reflexivity].
Qed.

(** A summary that runs into the quota: the dialog opens, the server's
    text is shown, summary and enrichment stay. *)
Example scenario_quota_exceeded :
  ∃ req w1 k w3,
    handleSummarize sample_backend sample_world = Pending req w1 k ∧
    k (Rejected error_429) w1 = Settled (Normal ()) w3 ∧
    isUpgradeModalOpen w3 = true ∧
    toasts w3 = [ToastError (lit "limit reached")] ∧
    summary w3 = lit "old summary" ∧
    enrichment w3 = lit "old enrichment".
Proof.
  eexists _, _, _, _. split; [reflexivity|]. split; [reflexivity|].
  split_and!; reflexivity.
Qed.

(** A rejection whose detail is the empty string shows the generic text. *)
Example scenario_empty_detail :
  ∃ req w1 k w3,
    handleEnrich sample_backend sample_world = Pending req w1 k ∧
    k (Rejected (mkAxiosError
                   (Some (mkErrorResponse 500 (Some (mkErrorData (Some [])))))))
      w1 = Settled (Normal ()) w3 ∧
    toasts w3 = [ToastError (lit "Erro ao executar enrich")].
Proof.
  eexists _, _, _, _. split; [reflexivity|]. split; reflexivity.
Qed.

(** A session: type a URL, transcribe, upgrade with some token, receive the
    transcript, summarize.  The first request has no header, the second
    carries the constant key. *)
Example scenario_session_headers :
  req_headers <$>
    sent (run sample_backend
            [EvChangeUrl (lit "https://youtu.be/abc"); EvClick Transcribe;
             EvUpgrade (lit "tok-1");
             EvResponse 0 (Fulfilled sample_data); EvClick Summarize]
            (start ∅)) =
  [∅; {[ lit "X-PRO-KEY" := MOCK_PRO_KEY ]}].
Proof. by vm_compute. Qed.

(** A key left in the storage slot is sent without any upgrade. *)
Example scenario_stored_key :
  req_headers <$>
    sent (run sample_backend
            [EvChangeUrl (lit "https://youtu.be/abc"); EvClick Transcribe]
            (start {[ PRO_KEY_STORAGE_NAME := lit "k" ]})) =
  [{[ lit "X-PRO-KEY" := lit "k" ]}].
Proof. by vm_compute. Qed.

(** * The claims at sample inputs *)

Lemma loading_cleared_on_every_exit_witness :
  ∃ req w1 k w3,
    handler sample_backend Summarize sample_world = Pending req w1 k ∧
    loading w1 !! stage_id Summarize = Some true ∧
    k (Rejected error_429) sample_world = Settled (Normal ()) w3 ∧
    loading w3 !! stage_id Summarize = Some false.
Proof.
  apply (loading_cleared_on_every_exit sample_backend Summarize sample_world
           (Rejected error_429) sample_world).
  reflexivity.
Defined.

Lemma quota_exhaustion_opens_paywall_witness :
  (∃ req w1 k w3,
     handleApiCall sample_backend (lit "/videos/summarize")
       (BodyText (lit "hello world")) (lit "summarize") sample_world =
       Pending req w1 k ∧
     k (Rejected error_429) sample_world = Settled (Throw error_429) w3 ∧
     isUpgradeModalOpen w3 = true ∧
     pipeline w3 = pipeline sample_world ∧
     toasts w3 = [ToastError (lit "limit reached")]) ∧
  (∃ req w1 k w3,
     handler sample_backend Summarize sample_world = Pending req w1 k ∧
     k (Rejected error_429) sample_world = Settled (Normal ()) w3 ∧
     isUpgradeModalOpen w3 = true ∧
     pipeline w3 = pipeline sample_world ∧
     toasts w3 = [ToastError (lit "limit reached")]).
Proof.
  apply (quota_exhaustion_opens_paywall sample_backend Summarize sample_world
           (lit "/videos/summarize") (BodyText (lit "hello world"))
           (lit "summarize") error_429 sample_world); reflexivity.
Defined.

Lemma transcribe_clears_derived_results_witness :
  ∃ req w1 k w3,
    handleTranscribe sample_backend sample_world = Pending req w1 k ∧
    summary w1 = [] ∧ enrichment w1 = [] ∧
    k (Rejected error_500) w1 = Settled (Normal ()) w3 ∧
    summary w3 = [] ∧ enrichment w3 = [] ∧
    (∀ w2, ∃ w3', k (Rejected error_500) w2 = Settled (Normal ()) w3' ∧
                  summary w3' = summary w2 ∧ enrichment w3' = enrichment w2).
Proof.
  apply (transcribe_clears_derived_results sample_backend sample_world
           (Rejected error_500)).
  reflexivity.
Defined.

Lemma other_failure_keeps_results_witness :
  ∃ req w1 k w3 w3',
    handler sample_backend Summarize sample_world = Pending req w1 k ∧
    pipeline w1 = stage_entry Summarize (pipeline sample_world) ∧
    k (Rejected (mkAxiosError
                     (Some (mkErrorResponse 500
                              (Some (mkErrorData
                                       (Some (lit "Video unavailable")))))))) sample_world = Settled (Normal ()) w3 ∧
    pipeline w3 = pipeline sample_world ∧
    isUpgradeModalOpen w3 = isUpgradeModalOpen sample_world ∧
    toasts w3 = [ToastError (lit "Video unavailable")] ∧
    k (Rejected (mkAxiosError
                     (Some (mkErrorResponse 500
                              (Some (mkErrorData
                                       (Some (lit "Video unavailable")))))))) w1 = Settled (Normal ()) w3' ∧
    pipeline w3' = stage_entry Summarize (pipeline sample_world) ∧
    ∃ kc wc, handleApiCall sample_backend (stage_endpoint Summarize)
               (stage_body Summarize sample_world) (stage_id Summarize)
               (with_pipeline (stage_entry Summarize (pipeline sample_world))
                  sample_world) =
               Pending req w1 kc ∧
             kc (Rejected (mkAxiosError
                     (Some (mkErrorResponse 500
                              (Some (mkErrorData
                                       (Some (lit "Video unavailable")))))))) sample_world = Settled (Throw (mkAxiosError
                     (Some (mkErrorResponse 500
                              (Some (mkErrorData
                                       (Some (lit "Video unavailable")))))))) wc ∧
             pipeline wc = pipeline sample_world ∧
             isUpgradeModalOpen wc = isUpgradeModalOpen sample_world.
Proof.
  apply (other_failure_keeps_results sample_backend Summarize sample_world
           (mkAxiosError
                     (Some (mkErrorResponse 500
                              (Some (mkErrorData
                                       (Some (lit "Video unavailable"))))))) sample_world).
  - discriminate.
  - reflexivity.
Defined.

Lemma success_stores_result_witness :
  (∃ req w1 k w3,
     handler sample_backend Transcribe sample_world = Pending req w1 k ∧
     pipeline w1 = stage_entry Transcribe (pipeline sample_world) ∧
     k (Fulfilled sample_data) sample_world = Settled (Normal ()) w3 ∧
     stage_field Transcribe w3 = stage_payload Transcribe sample_data ∧
     pipeline w3 =
       store Transcribe (stage_payload Transcribe sample_data)
         (pipeline sample_world) ∧
     toasts w3 =
       toasts sample_world ++ [ToastSuccess (stage_success Transcribe)] ∧
     ∀ e, ∃ w3', k (Rejected e) sample_world = Settled (Normal ()) w3' ∧
                 pipeline w3' = pipeline sample_world) ∧
  match handler sample_backend Transcribe blank_world with
  | Settled _ w0' => pipeline w0' = pipeline blank_world
  | Pending _ _ _ => True
  end.
Proof.
  apply (success_stores_result sample_backend Transcribe sample_world
           sample_data sample_world blank_world).
  reflexivity.
Defined.

Lemma entitlement_header_along_run_witness :
  (∃ new,
     sent (run sample_backend
             [EvResponse 0 (Fulfilled sample_data); EvClick Summarize]
             (step sample_backend
                (run sample_backend
                   [EvChangeUrl (lit "https://youtu.be/abc");
                    EvClick Transcribe]
                   (start {[ PRO_KEY_STORAGE_NAME := lit "stored-key" ]}))
                (EvUpgrade (lit "tok-1")))) =
       sent (run sample_backend
               [EvChangeUrl (lit "https://youtu.be/abc"); EvClick Transcribe]
               (start {[ PRO_KEY_STORAGE_NAME := lit "stored-key" ]})) ++ new ∧
     Forall (λ r, req_headers r = {[ lit "X-PRO-KEY" := MOCK_PRO_KEY ]}) new) ∧
  Forall (λ r, req_headers r = ∅)
    (sent (run sample_backend
             [EvChangeUrl (lit "https://youtu.be/abc"); EvClick Transcribe]
             (start ∅))).
Proof.
  destruct (entitlement_header_along_run sample_backend
              {[ PRO_KEY_STORAGE_NAME := lit "stored-key" ]}
              [EvChangeUrl (lit "https://youtu.be/abc"); EvClick Transcribe]
              (lit "tok-1")
              [EvResponse 0 (Fulfilled sample_data); EvClick Summarize]
              ∅
              [EvChangeUrl (lit "https://youtu.be/abc"); EvClick Transcribe])
    as [Hafter Hbefore].
  split; [exact Hafter | apply Hbefore; reflexivity].
Defined.

(** * Where the code departs from the specification *)

(** Against C3 as stated: after the upgrade action is run with the token
    [tok-1], the next summarize request carries [MOCK_PRO_KEY], not the
    token. *)
Lemma granted_token_is_not_sent :
  ∃ w1 req w2 k,
    buyProVersion (lit "tok-1") sample_world = Settled (Normal ()) w1 ∧
    handleSummarize sample_backend w1 = Pending req w2 k ∧
    req_headers req !! lit "X-PRO-KEY" = Some MOCK_PRO_KEY ∧
    req_headers req !! lit "X-PRO-KEY" ≠ Some (lit "tok-1").
Proof.
  eexists _, _, _, _. split; [reflexivity|]. split; [reflexivity|].
  split; [by vm_compute | by vm_compute].
Qed.

(** Against C5 as stated: a URL and a transcript that hold one space are
    not empty, yet transcribe and summarize refuse them. *)
Lemma blank_input_is_refused :
  url blank_world ≠ [] ∧
  handleTranscribe sample_backend blank_world =
    Settled (Normal ()) (notified (ToastError MSG_NEED_URL) blank_world) ∧
  transcript blank_world ≠ [] ∧
  handleSummarize sample_backend blank_world =
    Settled (Normal ())
      (notified (ToastError MSG_NEED_TRANSCRIPT) blank_world).
Proof. split_and!; [done | reflexivity | done | reflexivity]. Qed.

(** Against C6 as stated: a transcribe invocation started with a summary
    and an enrichment in place, whose call is rejected with status 500,
    ends with both emptied. *)
Lemma failed_transcribe_loses_results :
  ∃ req w1 k w3,
    handleTranscribe sample_backend sample_world = Pending req w1 k ∧
    k (Rejected error_500) w1 = Settled (Normal ()) w3 ∧
    summary sample_world = lit "old summary" ∧
    enrichment sample_world = lit "old enrichment" ∧
    summary w3 = [] ∧ enrichment w3 = [] ∧
    pipeline w3 ≠ pipeline sample_world.
Proof.
  eexists _, _, _, _. split; [reflexivity|]. split; [reflexivity|].
  split_and!; [reflexivity | reflexivity | reflexivity | reflexivity | done].
Qed.

(** * Further properties of the event loop *)

Lemma stage_id_inj s s' : stage_id s = stage_id s' → s = s'.
Proof. destruct s, s'; intros H; try reflexivity; by vm_compute in H. Qed.

Section Runs.

Variable BACKEND_URL : jsstring.

Lemma handler_leaves_stage_cont st w :
  truthy (trim (stage_input st w)) = true →
  ∃ k, stage_cont st k ∧
       handler BACKEND_URL st w =
         Pending
           (mkRequest (API BACKEND_URL ++ stage_endpoint st) (stage_body st w)
              (headers_for (proKey w)))
           (with_loading (stage_id st) true
              (with_pipeline (stage_entry st (pipeline w)) w)) k.
Proof.
  intros Hv. destruct (handler_calls BACKEND_URL st w Hv) as (k & Hk & Hok & Hko).
  exists k. by split.
Qed.

(** *** What one event does to a well-formed system *)

Lemma step_click_accept s st :
  truthy (trim (stage_input st (world s))) = true →
  ∃ k, stage_cont st k ∧
       step BACKEND_URL s (EvClick st) =
         mkSys
           (with_loading (stage_id st) true
              (with_pipeline (stage_entry st (pipeline (world s))) (world s)))
           (inflight s ++ [k])
           (sent s ++ [mkRequest (API BACKEND_URL ++ stage_endpoint st)
                         (stage_body st (world s))
                         (headers_for (proKey (world s)))]).
Proof.
  intros Hv. destruct (handler_leaves_stage_cont st (world s) Hv) as (k & Hk & Hh).
  exists k. split; [done|]. cbn [step]. by rewrite Hh.
Qed.

Lemma step_click_refuse s st :
  truthy (trim (stage_input st (world s))) = false →
  step BACKEND_URL s (EvClick st) =
    mkSys (notified (ToastError (stage_refusal st)) (world s))
      (inflight s) (sent s).
Proof.
  intros Hv. cbn [step]. by rewrite (handler_refuses BACKEND_URL st _ Hv).
Qed.

Lemma step_response s i o k st :
  inflight s !! i = Some k → stage_cont st k →
  step BACKEND_URL s (EvResponse i o) =
    mkSys
      match o with
      | Fulfilled d => after_success st d (world s)
      | Rejected e => after_failure (stage_id st) e (world s)
      end
      (delete i (inflight s)) (sent s).
Proof.
  intros Hi [Hok Hko]. cbn [step]. rewrite Hi.
  destruct o as [d|e]; [by rewrite Hok | by rewrite Hko].
Qed.

Lemma step_response_none s i o :
  inflight s !! i = None → step BACKEND_URL s (EvResponse i o) = s.
Proof. intros Hi. cbn [step]. by rewrite Hi. Qed.

Lemma wf_lookup s i k :
  wf s → inflight s !! i = Some k → ∃ st, stage_cont st k.
Proof. intros Hwf Hi. exact (Forall_lookup_1 _ _ _ _ Hwf Hi). Qed.

(** Case analysis on one event of a well-formed system, with the step
    rewritten to the system it yields. *)
Ltac step_cases s ev Hwf :=
  let v := fresh "v" in let st := fresh "st" in let key := fresh "secretKey" in
  let i := fresh "i" in let o := fresh "o" in let k := fresh "k" in
  let Hv := fresh "Hv" in let Hk := fresh "Hk" in let Hi := fresh "Hi" in
  destruct ev as [v|st|key| |i o];
  [ change (step BACKEND_URL s (EvChangeUrl v))
      with (mkSys (with_url v (world s)) (inflight s) (sent s))
  | destruct (truthy (trim (stage_input st (world s)))) eqn:Hv;
    [ destruct (step_click_accept s st Hv) as (k & Hk & ->)
    | rewrite (step_click_refuse s st Hv) ]
  | change (step BACKEND_URL s (EvUpgrade key))
      with (mkSys (upgraded (world s)) (inflight s) (sent s))
  | change (step BACKEND_URL s EvCloseDialog)
      with (mkSys (with_modal false (world s)) (inflight s) (sent s))
  | destruct (inflight s !! i) as [k|] eqn:Hi;
    [ destruct (wf_lookup s i k Hwf Hi) as [st Hk];
      rewrite (step_response s i o k st Hi Hk)
    | rewrite (step_response_none s i o Hi) ] ].

Lemma step_wf s ev : wf s → wf (step BACKEND_URL s ev).
Proof.
  intros Hwf. step_cases s ev Hwf; try exact Hwf.
  - apply Forall_app. split; [exact Hwf|]. constructor; eauto.
  - by apply Forall_delete.
Qed.

Lemma start_wf storage : wf (start storage).
Proof.
  unfold wf. destruct (start_spec storage) as (-> & _). constructor.
Qed.

(** Induction along a run: a property of the start that every event
    allowed by [Q] preserves holds at the end. *)
Lemma run_ind (P : Sys → Prop) (Q : Event → Prop) evs s :
  wf s → P s → Forall Q evs →
  (∀ s ev, wf s → Q ev → P s → P (step BACKEND_URL s ev)) →
  wf (run BACKEND_URL evs s) ∧ P (run BACKEND_URL evs s).
Proof.
  intros Hwf HP HQ Hstep. revert s Hwf HP.
  induction HQ as [|ev evs Hev _ IH]; intros s Hwf HP; [done|].
  cbn. apply IH; [by apply step_wf | by apply Hstep].
Qed.

Lemma Forall_trivial_events (evs : list Event) : Forall (λ _, True) evs.
Proof. by apply Forall_true. Qed.

Lemma after_failure_loading_eq action e w :
  loading (after_failure action e w) = <[action := false]> (loading w).
Proof. unfold after_failure. by destruct (status_is_429 e). Qed.

Lemma after_failure_localStorage action e w :
  localStorage (after_failure action e w) = localStorage w.
Proof. unfold after_failure. by destruct (status_is_429 e). Qed.

(** A continuation belongs to one stage only. *)
Lemma stage_cont_unique k st st' : stage_cont st k → stage_cont st' k → st = st'.
Proof.
  intros [_ H] [_ H']. apply stage_id_inj.
  pose proof (H (mkAxiosError None)
                (mkWorld [] [] [] [] ∅ false None ∅ [])) as E.
  rewrite H' in E.
  assert (E' : loading (after_failure (stage_id st') (mkAxiosError None)
                          (mkWorld [] [] [] [] ∅ false None ∅ [])) =
               loading (after_failure (stage_id st) (mkAxiosError None)
                          (mkWorld [] [] [] [] ∅ false None ∅ [])))
    by congruence.
  rewrite !after_failure_loading_eq in E'. cbn [loading] in E'.
  apply (f_equal (λ m, m !! stage_id st)) in E'.
  rewrite lookup_insert_eq in E'.
  destruct (decide (stage_id st' = stage_id st)) as [|Hne]; [done|].
  by rewrite lookup_insert_ne in E'.
Qed.

(** X1.  As long as the upgrade action does not run, nothing writes the
    browser storage or the key held in memory: after any sequence of URL
    edits, stage clicks, dialog closings and call completions the storage
    is the one the application was mounted on and the key is the one the
    mount effect loaded. *)
Theorem entitlement_untouched_without_upgrade storage evs :
  forallb (λ ev, negb (is_upgrade ev)) evs = true →
  localStorage (world (run BACKEND_URL evs (start storage))) = storage ∧
  proKey (world (run BACKEND_URL evs (start storage))) =
    proKey (world (start storage)).
Proof.
  intros Hq.
  apply (run_ind
           (λ s, localStorage (world s) = storage ∧
                 proKey (world s) = proKey (world (start storage)))
           (λ ev, is_upgrade ev = false) evs (start storage)).
  - apply start_wf.
  - split; [|done]. unfold start. unfold_app. cbn [initial localStorage].
    by destruct (truthy_opt (storage !! PRO_KEY_STORAGE_NAME)).
  - apply Forall_forall. intros ev Hin.
    rewrite forallb_forall in Hq. apply list_elem_of_In, Hq in Hin.
    by destruct (is_upgrade ev).
  - intros s ev Hwf Hev [Hs Hp]. step_cases s ev Hwf; try done.
    destruct o as [d|e]; cbn [world]; [done|].
    by rewrite after_failure_localStorage, after_failure_proKey.
Qed.

(** X2.  A loading flag that is not false has a call of its stage in
    flight: at every point of every run, for each stage, either the flag
    is false or a continuation of that stage is waiting for its
    response. *)
Theorem flag_up_means_call_in_flight storage evs st :
  loading (world (run BACKEND_URL evs (start storage))) !! stage_id st =
    Some false ∨
  ∃ i k, inflight (run BACKEND_URL evs (start storage)) !! i = Some k ∧
         stage_cont st k.
Proof.
  revert st.
  apply (run_ind
           (λ s, ∀ st, loading (world s) !! stage_id st = Some false ∨
                       ∃ i k, inflight s !! i = Some k ∧ stage_cont st k)
           (λ _, True) evs (start storage));
    [apply start_wf | | apply Forall_trivial_events |].
  - intros st. left. unfold start. unfold_app. cbn [initial localStorage].
    destruct (truthy_opt (storage !! PRO_KEY_STORAGE_NAME)), st; reflexivity.
  - intros s ev Hwf _ HP st'. step_cases s ev Hwf; try apply HP.
    + (* an accepted click *)
      cbn [world inflight loading with_loading].
      destruct (decide (st' = st)) as [->|Hne].
      * right. exists (length (inflight s)), k.
        split; [|done]. by rewrite lookup_app_r, Nat.sub_diag.
      * destruct (HP st') as [Hf|(j & k' & Hj & Hk')].
        -- left. rewrite lookup_insert_ne; [done|].
           intros E. by apply stage_id_inj in E.
        -- right. exists j, k'. split; [|done].
           rewrite lookup_app_l; [done|]. by eapply lookup_lt_Some.
    + (* a completion *)
      cbn [world inflight].
      assert (Hl : loading match o with
                           | Fulfilled d => after_success st d (world s)
                           | Rejected e => after_failure (stage_id st) e (world s)
                           end = <[stage_id st := false]> (loading (world s))).
      { destruct o; [done | apply after_failure_loading_eq]. }
      rewrite Hl. destruct (decide (st' = st)) as [->|Hne].
      * left. apply lookup_insert_eq.
      * assert (Hid : stage_id st ≠ stage_id st').
        { intros E. by apply stage_id_inj in E. }
        rewrite lookup_insert_ne by done.
        destruct (HP st') as [Hf|(j & k' & Hj & Hk')]; [by left|].
        right. destruct (lt_eq_lt_dec j i) as [[Hlt | ->] | Hgt].
        -- exists j, k'. by rewrite list_lookup_delete_lt.
        -- rewrite Hi in Hj. injection Hj as ->.
           destruct Hne. eauto using stage_cont_unique.
        -- exists (pred j), k'. split; [|done].
           rewrite list_lookup_delete_ge by lia.
           by replace (S (pred j)) with j by lia.
Qed.

(** X3.  The [loading] object keeps exactly its three keys: no event of
    any run adds or removes one. *)
Theorem loading_keys_fixed storage evs :
  dom (loading (world (run BACKEND_URL evs (start storage)))) =
    {[ lit "transcribe"; lit "summarize"; lit "enrich" ]}.
Proof.
  replace ({[ lit "transcribe"; lit "summarize"; lit "enrich" ]} : gset jsstring)
    with (dom (loading (initial ∅)))
    by (cbn [initial loading];
        by rewrite !dom_insert_L, dom_singleton_L, !(assoc_L (∪))).
  apply (run_ind (λ s, dom (loading (world s)) = dom (loading (initial ∅)))
           (λ _, True) evs (start storage));
    [apply start_wf | | apply Forall_trivial_events |].
  - unfold start. unfold_app. cbn [initial localStorage].
    by destruct (truthy_opt (storage !! PRO_KEY_STORAGE_NAME)).
  - assert (Hin : ∀ st, stage_id st ∈ dom (loading (initial ∅))).
    { intros st. apply elem_of_dom. exists false. by destruct st. }
    intros s ev Hwf _ HP. step_cases s ev Hwf; try exact HP.
    + cbn [world loading with_loading with_pipeline].
      rewrite dom_insert_L, HP.
      apply subseteq_union_1_L, singleton_subseteq_l, Hin.
    + cbn [world].
      assert (Hl : loading match o with
                           | Fulfilled d => after_success st d (world s)
                           | Rejected e => after_failure (stage_id st) e (world s)
                           end = <[stage_id st := false]> (loading (world s))).
      { destruct o; [done | apply after_failure_loading_eq]. }
      rewrite Hl, dom_insert_L, HP.
      apply subseteq_union_1_L, singleton_subseteq_l, Hin.
Qed.

Lemma step_sent_bound s ev :
  wf s →
  (length (sent (step BACKEND_URL s ev)) ≤
   length (sent s) + (if is_click ev then 1 else 0))%nat.
Proof.
  intros Hwf. step_cases s ev Hwf; cbn [sent is_click]; try lia.
  rewrite length_app. cbn. lia.
Qed.

(** X4.  No retry: a run sends at most one request per stage click; URL
    edits, upgrades, dialog closings and call completions send none. *)
Theorem requests_bounded_by_clicks storage evs :
  (length (sent (run BACKEND_URL evs (start storage))) ≤
   length (List.filter is_click evs))%nat.
Proof.
  assert (H : ∀ s, wf s →
            (length (sent (run BACKEND_URL evs s)) ≤
             length (sent s) + length (List.filter is_click evs))%nat).
  { induction evs as [|ev evs IH]; intros s Hwf; [cbn; lia|].
    change (run BACKEND_URL (ev :: evs) s)
      with (run BACKEND_URL evs (step BACKEND_URL s ev)).
    pose proof (IH _ (step_wf s ev Hwf)) as H1.
    pose proof (step_sent_bound s ev Hwf) as H2.
    cbn [List.filter]. destruct (is_click ev); cbn [length]; lia. }
  specialize (H (start storage) (start_wf storage)).
  destruct (start_spec storage) as (_ & Hs & _). rewrite Hs in H. exact H.
Qed.

(** X5.  The upgrade dialog opens on quota exhaustion only: in a run in
    which no call completes with a rejection of status 429 the dialog
    stays closed. *)
Theorem paywall_only_on_quota storage evs :
  forallb (λ ev, negb (is_quota_response ev)) evs = true →
  isUpgradeModalOpen (world (run BACKEND_URL evs (start storage))) = false.
Proof.
  intros Hq.
  apply (run_ind (λ s, isUpgradeModalOpen (world s) = false)
           (λ ev, is_quota_response ev = false) evs (start storage)).
  - apply start_wf.
  - unfold start. unfold_app. cbn [initial localStorage].
    by destruct (truthy_opt (storage !! PRO_KEY_STORAGE_NAME)).
  - apply Forall_forall. intros ev Hin.
    rewrite forallb_forall in Hq. apply list_elem_of_In, Hq in Hin.
    by destruct (is_quota_response ev).
  - intros s ev Hwf Hev HP. step_cases s ev Hwf; try done.
    destruct o as [d|e]; cbn [world]; [done|].
    rewrite after_failure_modal. cbn in Hev. by rewrite Hev.
Qed.

(** X6.  A late completion overwrites fresh state.  Click summarize, then
    click transcribe while the summary is still in flight: the
    transcription has emptied the summary, but when the first call is
    fulfilled afterwards its result is stored all the same, next to the
    new transcript it was not computed from. *)
Theorem stale_summary_overwrites w log d_tr d_sum :
  truthy (trim (transcript w)) = true →
  truthy (trim (url w)) = true →
  ∃ s1 s2,
    run BACKEND_URL [EvClick Summarize; EvClick Transcribe] (mkSys w [] log)
      = s1 ∧
    summary (world s1) = [] ∧
    run BACKEND_URL
      [EvResponse 1 (Fulfilled d_tr); EvResponse 0 (Fulfilled d_sum)] s1
      = s2 ∧
    inflight s2 = [] ∧
    transcript (world s2) = data_transcript d_tr ∧
    summary (world s2) = data_result d_sum.
Proof.
  intros Ht Hu. unfold run. cbn [foldl].
  destruct (step_click_accept (mkSys w [] log) Summarize Ht)
    as (k1 & Hk1 & ->).
  match goal with
  | |- context [step _ ?s (EvClick Transcribe)] =>
      destruct (step_click_accept s Transcribe Hu) as (k2 & Hk2 & ->)
  end.
  cbn [world inflight sent app].
  eexists _, _. split; [reflexivity|]. split; [reflexivity|].
  match goal with
  | |- context [step _ ?s (EvResponse 1 ?o)] =>
      rewrite (step_response s 1 o k2 Transcribe eq_refl Hk2)
  end.
  cbn [world inflight sent].
  match goal with
  | |- context [step _ ?s (EvResponse 0 ?o)] =>
      rewrite (step_response s 0 o k1 Summarize eq_refl Hk1)
  end.
  split; [reflexivity|]. by split_and!.
Qed.

End Runs.

(** * Further properties of the handlers *)

Section MoreHandlers.

Variable BACKEND_URL : jsstring.

(** X7.  The loading flags are independent: an invocation of one stage,
    from its start to its completion on any outcome, never changes the
    flag of another stage. *)
Theorem other_flags_untouched st st' w o w2 :
  truthy (trim (stage_input st w)) = true →
  st' ≠ st →
  ∃ req w1 k w3,
    handler BACKEND_URL st w = Pending req w1 k ∧
    loading w1 !! stage_id st' = loading w !! stage_id st' ∧
    k o w2 = Settled (Normal ()) w3 ∧
    loading w3 !! stage_id st' = loading w2 !! stage_id st'.
Proof.
  intros Hv Hne.
  assert (Hid : stage_id st ≠ stage_id st').
  { intros E. by apply stage_id_inj in E. }
  destruct (handler_calls BACKEND_URL st w Hv) as (k & Hk & Hok & Hko).
  destruct o as [d|e].
  - eexists _, _, k, (after_success st d w2).
    split_and!; [exact Hk | | apply Hok |]; cbn; by rewrite lookup_insert_ne.
  - eexists _, _, k, (after_failure (stage_id st) e w2).
    split_and!; [exact Hk | | apply Hko |].
    + cbn. by rewrite lookup_insert_ne.
    + rewrite after_failure_loading_eq. by rewrite lookup_insert_ne.
Qed.

(** X8.  What goes out: a handler posts to the backend's
    [/api/videos/<action>], where [<action>] is the name of its own
    loading flag, and the body carries the URL or the transcript exactly
    as held in the state, white space around it included: the trimmed
    value is only tested, never sent. *)
Theorem request_carries_input_as_held st w :
  truthy (trim (stage_input st w)) = true →
  ∃ req w1 k,
    handler BACKEND_URL st w = Pending req w1 k ∧
    req_url req = BACKEND_URL ++ lit "/api" ++ lit "/videos/" ++ stage_id st ∧
    req_data req =
      match st with
      | Transcribe => BodyUrl (stage_input st w)
      | Summarize | Enrich => BodyText (stage_input st w)
      end.
Proof.
  intros Hv. destruct (handler_calls BACKEND_URL st w Hv) as (k & Hk & _).
  eexists _, _, k. split; [exact Hk|]. cbn [req_url req_data]. split.
  - unfold API. rewrite <- app_assoc. by destruct st.
  - by destruct st.
Qed.

(** X9.  The key survives a reload.  Whatever the state in which the
    upgrade action runs, an application mounted afterwards on the storage
    it left holds [MOCK_PRO_KEY] from the start, and every request of
    that later session carries it. *)
Theorem upgrade_survives_reload s secretKey evs :
  proKey (world (start (localStorage
                          (world (step BACKEND_URL s (EvUpgrade secretKey))))))
    = Some MOCK_PRO_KEY ∧
  Forall (λ r, req_headers r = {[ lit "X-PRO-KEY" := MOCK_PRO_KEY ]})
    (sent (run BACKEND_URL evs
             (start (localStorage
                       (world (step BACKEND_URL s (EvUpgrade secretKey))))))).
Proof.
  change (localStorage (world (step BACKEND_URL s (EvUpgrade secretKey))))
    with (<[PRO_KEY_STORAGE_NAME := MOCK_PRO_KEY]> (localStorage (world s))).
  set (storage := <[PRO_KEY_STORAGE_NAME := MOCK_PRO_KEY]> (localStorage (world s))).
  assert (Hslot : storage !! PRO_KEY_STORAGE_NAME = Some MOCK_PRO_KEY)
    by apply lookup_insert_eq.
  destruct (start_spec storage) as (Hin & Hsent & Hkey).
  rewrite Hslot in Hkey. cbn in Hkey. split; [exact Hkey|].
  destruct (run_fixed_key BACKEND_URL evs (start storage) (Some MOCK_PRO_KEY))
    as (_ & new & Hs & Hnew); [by rewrite Hin | done | by left |].
  by rewrite Hs, Hsent.
Qed.

End MoreHandlers.

(** * Properties of [formatMarkdown] *)

Lemma replace_go_skip_all m tmpl s n :
  (length s ≤ n)%nat → replace_go m tmpl s n = [].
Proof.
  revert n. induction s as [|c s IH]; intros n Hn; [done|].
  destruct n as [|n]; cbn in *; [lia|]. apply IH. lia.
Qed.

(** A scan copies its input when the expression needs a first code unit
    the input does not contain. *)
Lemma replace_all_no_trigger m tmpl (trig : N → bool) s :
  (∀ c r, trig c = false → m (c :: r) = None) →
  Forall (λ c, trig c = false) s →
  replace_all m tmpl s = s.
Proof.
  intros Hm Hs. unfold replace_all.
  induction Hs as [|c s Hc _ IH]; [done|].
  cbn [replace_go]. by rewrite (Hm c s Hc), IH.
Qed.

Lemma match_h2_trigger c r : (c =? 35) = false → match_h2 (c :: r) = None.
Proof.
  intros Hc. unfold match_h2. change (lit "## ") with [35; 35; 32].
  cbn [strip_prefix]. rewrite N.eqb_sym in Hc. by rewrite Hc.
Qed.

Lemma match_h3_trigger c r : (c =? 35) = false → match_h3 (c :: r) = None.
Proof.
  intros Hc. unfold match_h3. change (lit "### ") with [35; 35; 35; 32].
  cbn [strip_prefix]. rewrite N.eqb_sym in Hc. by rewrite Hc.
Qed.

Lemma match_strong_trigger c r :
  (c =? 42) = false → match_strong (c :: r) = None.
Proof.
  intros Hc. unfold match_strong. change (lit "**") with [42; 42].
  cbn [strip_prefix]. rewrite N.eqb_sym in Hc. by rewrite Hc.
Qed.

Lemma match_em_trigger c r : (c =? 42) = false → match_em (c :: r) = None.
Proof.
  intros Hc. unfold match_em. change (lit "*") with [42].
  cbn [strip_prefix]. rewrite N.eqb_sym in Hc. by rewrite Hc.
Qed.

Lemma match_nl_trigger c r : (c =? 10) = false → match_nl (c :: r) = None.
Proof. intros Hc. cbn. by rewrite Hc. Qed.

Lemma replace_li_no_dash_space s :
  dash_space_free s = true → replace_all match_li tmpl_li s = s.
Proof.
  unfold replace_all. induction s as [|c s IH]; [done|].
  cbn [dash_space_free]. intros [Hc Hs]%andb_prop.
  cbn [replace_go]. rewrite (IH Hs).
  assert (Hm : match_li (c :: s) = None); [|by rewrite Hm].
  unfold match_li. change (lit "- ") with [45; 32]. cbn [strip_prefix].
  rewrite (N.eqb_sym 45 c). destruct (c =? 45); [|done].
  destruct s as [|c' s']; [done|].
  rewrite (N.eqb_sym 32 c'). cbn in Hc. by destruct (c' =? 32).
Qed.

Lemma dash_space_free_app a b :
  dash_space_free a = true → dash_space_free b = true →
  last a ≠ Some 45 ∨ head b ≠ Some 32 →
  dash_space_free (a ++ b) = true.
Proof.
  intros Ha Hb Hj. induction a as [|c a IH]; [done|].
  cbn [dash_space_free] in Ha. apply andb_prop in Ha as [Hc Ha].
  destruct a as [|c' a'].
  - cbn [app dash_space_free]. rewrite Hb, andb_true_r.
    destruct b as [|c' b']; [done|].
    destruct (N.eqb_spec c 45) as [->|]; [|done].
    destruct (N.eqb_spec c' 32) as [->|]; [|done].
    by destruct Hj.
  - change ((c :: c' :: a') ++ b) with (c :: c' :: (a' ++ b)).
    cbn [dash_space_free]. cbn [dash_space_free] in IH.
    rewrite Hc. cbn [andb]. apply IH; [done|].
    destruct Hj as [Hj|Hj]; [left | by right].
    by rewrite last_cons_cons in Hj.
Qed.

Lemma no_dash_dash_space_free s :
  Forall (λ c, (c =? 45) = false) s → dash_space_free s = true.
Proof.
  induction 1 as [|c s Hc _ IH]; [done|].
  cbn [dash_space_free]. rewrite IH, Hc. by destruct s.
Qed.

Lemma dot_star_no_terminator s :
  Forall (λ c, is_line_terminator c = false) s → dot_star s = s.
Proof. induction 1 as [|c s Hc _ IH]; [done|]. cbn. by rewrite Hc, IH. Qed.

Lemma plain_triggers s :
  plain s →
  Forall (λ c, (c =? 35) = false) s ∧ Forall (λ c, (c =? 42) = false) s ∧
  Forall (λ c, (c =? 10) = false) s.
Proof.
  intros [H _]. split_and!; eapply Forall_impl; try exact H;
    intros c (? & ? & ?); by apply N.eqb_neq.
Qed.

(** X10.  Text that holds no hash, no asterisk, no line feed and no
    hyphen followed by a space comes out of [formatMarkdown] as it went
    in.  Nothing else is rewritten: in particular the characters of HTML
    markup are passed on unescaped. *)
Theorem formatMarkdown_plain_text text :
  plain text → formatMarkdown text = text.
Proof.
  intros Hp. destruct (plain_triggers text Hp) as (H35 & H42 & H10).
  destruct Hp as [_ Hd]. unfold formatMarkdown.
  destruct text as [|c text]; [done|]. cbn [truthy negb].
  rewrite (replace_all_no_trigger _ _ _ _ match_h2_trigger H35).
  rewrite (replace_all_no_trigger _ _ _ _ match_h3_trigger H35).
  rewrite (replace_all_no_trigger _ _ _ _ match_strong_trigger H42).
  rewrite (replace_all_no_trigger _ _ _ _ match_em_trigger H42).
  rewrite (replace_li_no_dash_space _ Hd).
  apply (replace_all_no_trigger _ _ _ _ match_nl_trigger H10).
Qed.

Lemma replace_nl_no_line_feed s n :
  Forall (λ c, c ≠ 10) (replace_go match_nl tmpl_br s n).
Proof.
  revert n. induction s as [|c s IH]; intros n; [constructor|].
  destruct n as [|n]; cbn [replace_go]; [|apply IH].
  cbn [match_nl]. destruct (N.eqb_spec c 10) as [->|Hc].
  - apply Forall_app. split; [|apply IH].
    unfold tmpl_br. vm_compute. repeat constructor; done.
  - constructor; [done | apply IH].
Qed.

(** X11.  The output of [formatMarkdown] never holds a line feed: every
    one that is left when the last replacement runs becomes [<br/>]. *)
Theorem formatMarkdown_no_line_feed text :
  Forall (λ c, c ≠ 10) (formatMarkdown text).
Proof.
  unfold formatMarkdown. destruct (negb (truthy text)); [constructor|].
  apply replace_nl_no_line_feed.
Qed.

Lemma replace_go_miss m tmpl c s :
  m (c :: s) = None →
  replace_go m tmpl (c :: s) 0 = c :: replace_go m tmpl s 0.
Proof. intros H. cbn [replace_go]. by rewrite H. Qed.

Lemma replace_go_hit m tmpl c s cap len :
  m (c :: s) = Some (cap, len) →
  replace_go m tmpl (c :: s) 0 = tmpl cap ++ replace_go m tmpl s (pred len).
Proof. intros H. cbn [replace_go]. by rewrite H. Qed.

(** A property of code units holds of a filled template when it holds of
    the capture and of the fixed text around it. *)
Ltac template_forall :=
  unfold tmpl_h2, tmpl_h3, tmpl_strong, tmpl_em, tmpl_li;
  repeat (apply Forall_app; split); try assumption;
  vm_compute; repeat constructor; done.

Lemma h2_dash_space_free t :
  dash_space_free t = true → dash_space_free (35 :: tmpl_h2 t) = true.
Proof.
  intros Ht.
  change (35 :: tmpl_h2 t)
    with ((35 :: lit "<h2 class=" ++ [34] ++
           lit "text-xl font-bold text-cyan-400 mb-3 mt-6" ++ [34] ++ lit ">")
          ++ (t ++ lit "</h2>")).
  apply dash_space_free_app; [by vm_compute | | left; by vm_compute].
  apply dash_space_free_app; [done | by vm_compute | right; by vm_compute].
Qed.

(** X12.  A level-three heading never becomes an [h3].  The first
    replacement already finds two hashes and a space inside the three, so
    a text made of three hashes, a space and a one-line title without
    markup comes out as one hash followed by the title as an [h2]. *)
Theorem formatMarkdown_h3_shadowed t :
  plain t → Forall (λ c, is_line_terminator c = false) t →
  formatMarkdown (lit "### " ++ t) = lit "#" ++ tmpl_h2 t.
Proof.
  intros Hp Hlt. destruct (plain_triggers t Hp) as (H35 & H42 & H10).
  destruct Hp as [_ Hd]. unfold formatMarkdown.
  change (lit "### " ++ t) with (35 :: 35 :: 35 :: 32 :: t).
  change (lit "#" ++ tmpl_h2 t) with (35 :: tmpl_h2 t).
  cbn [truthy negb].
  assert (E1 : replace_all match_h2 tmpl_h2 (35 :: 35 :: 35 :: 32 :: t) =
               35 :: tmpl_h2 t).
  { unfold replace_all.
    rewrite (replace_go_miss match_h2 tmpl_h2 35 (35 :: 35 :: 32 :: t) eq_refl).
    rewrite (replace_go_hit match_h2 tmpl_h2 35 (35 :: 32 :: t) _ _ eq_refl).
    rewrite (dot_star_no_terminator t Hlt).
    rewrite replace_go_skip_all by (cbn; lia).
    by rewrite app_nil_r. }
  assert (E2 : replace_all match_h3 tmpl_h3 (35 :: tmpl_h2 t) =
               35 :: tmpl_h2 t).
  { unfold replace_all.
    rewrite (replace_go_miss match_h3 tmpl_h3 35 (tmpl_h2 t) eq_refl).
    f_equal. apply (replace_all_no_trigger _ _ _ _ match_h3_trigger).
    template_forall. }
  rewrite E1, E2.
  rewrite (replace_all_no_trigger _ _ _ (35 :: tmpl_h2 t) match_strong_trigger)
    by (constructor; [done | template_forall]).
  rewrite (replace_all_no_trigger _ _ _ (35 :: tmpl_h2 t) match_em_trigger)
    by (constructor; [done | template_forall]).
  rewrite (replace_li_no_dash_space _ (h2_dash_space_free t Hd)).
  apply (replace_all_no_trigger _ _ _ _ match_nl_trigger).
  constructor; [done | template_forall].
Qed.

Lemma lazy_until_found delim c0 t r :
  delim = c0 :: r →
  Forall (λ c, (c =? c0) = false ∧ is_line_terminator c = false) t →
  ∀ rest, lazy_until delim (t ++ delim ++ rest) = Some t.
Proof.
  intros -> Ht rest. induction Ht as [|c t [Hc Hlt] _ IH].
  - cbn [app lazy_until strip_prefix]. rewrite N.eqb_refl.
    assert (H : ∀ p s, strip_prefix p (p ++ s) = Some s).
    { induction p as [|a p IHp]; intros s; [done|].
      cbn. by rewrite N.eqb_refl. }
    by rewrite H.
  - cbn [app lazy_until strip_prefix].
    rewrite (N.eqb_sym c0 c), Hc, Hlt. cbn [app] in IH. by rewrite IH.
Qed.

Lemma lazy_until_eol_end t :
  Forall (λ c, is_line_terminator c = false) t → lazy_until_eol t = Some t.
Proof.
  induction 1 as [|c t Hc _ IH]; [done|]. cbn [lazy_until_eol].
  rewrite Hc, IH.
  unfold is_line_terminator in Hc. by destruct (c =? 10).
Qed.

Lemma lazy_until_eol_carriage_return t rest :
  Forall (λ c, is_line_terminator c = false) t →
  lazy_until_eol (t ++ 13 :: rest) = None.
Proof.
  induction 1 as [|c t Hc _ IH]; [done|]. cbn [app lazy_until_eol].
  rewrite Hc, IH.
  unfold is_line_terminator in Hc. by destruct (c =? 10).
Qed.

Lemma strong_dash_space_free t :
  dash_space_free t = true → dash_space_free (tmpl_strong t) = true.
Proof.
  intros Ht.
  change (tmpl_strong t)
    with ((lit "<strong class=" ++ [34] ++ lit "text-cyan-300" ++ [34] ++
           lit ">") ++ (t ++ lit "</strong>")).
  apply dash_space_free_app; [by vm_compute | | left; by vm_compute].
  apply dash_space_free_app; [done | by vm_compute | right; by vm_compute].
Qed.

(** X13.  Bold text: a one-line text without markup set between two
    pairs of asterisks comes out wrapped in the [strong] element, and
    nothing else is added. *)
Theorem formatMarkdown_strong t :
  plain t → Forall (λ c, is_line_terminator c = false) t →
  formatMarkdown (lit "**" ++ t ++ lit "**") = tmpl_strong t.
Proof.
  intros Hp Hlt. destruct (plain_triggers t Hp) as (H35 & H42 & H10).
  destruct Hp as [_ Hd]. unfold formatMarkdown.
  change (lit "**" ++ t ++ lit "**") with (42 :: 42 :: t ++ [42; 42]).
  cbn [truthy negb].
  assert (H35' : Forall (λ c, (c =? 35) = false) (42 :: 42 :: t ++ [42; 42])).
  { do 2 (constructor; [done|]). apply Forall_app.
    split; [done | by repeat constructor]. }
  rewrite (replace_all_no_trigger _ _ _ _ match_h2_trigger H35').
  rewrite (replace_all_no_trigger _ _ _ _ match_h3_trigger H35').
  assert (Hm : match_strong (42 :: 42 :: t ++ [42; 42]) =
               Some (t, (4 + length t)%nat)).
  { unfold match_strong. change (lit "**") with [42; 42].
    change (strip_prefix [42; 42] (42 :: 42 :: t ++ [42; 42]))
      with (Some (t ++ [42; 42] ++ [])).
    cbn [mbind option_bind].
    rewrite (lazy_until_found [42; 42] 42 t [42] eq_refl); [done|].
    apply Forall_forall. intros c Hc. split.
    - by apply (proj1 (Forall_forall _ _) H42).
    - by apply (proj1 (Forall_forall _ _) Hlt). }
  assert (E : replace_all match_strong tmpl_strong (42 :: 42 :: t ++ [42; 42])
              = tmpl_strong t).
  { unfold replace_all. rewrite (replace_go_hit _ _ _ _ _ _ Hm).
    rewrite replace_go_skip_all; [by rewrite app_nil_r|].
    cbn. rewrite length_app. cbn. lia. }
  rewrite E.
  rewrite (replace_all_no_trigger _ _ _ (tmpl_strong t) match_em_trigger)
    by template_forall.
  rewrite (replace_li_no_dash_space _ (strong_dash_space_free t Hd)).
  apply (replace_all_no_trigger _ _ _ _ match_nl_trigger). template_forall.
Qed.

(** X14.  List items and line endings.  A hyphen, a space and a one-line
    text without markup at the end of the input become a list item; the
    same line followed by a carriage return is left as it is, since the
    expression accepts only a line feed or the end of the input after the
    item. *)
Theorem formatMarkdown_list_item t :
  plain t → Forall (λ c, is_line_terminator c = false) t →
  formatMarkdown (lit "- " ++ t) = tmpl_li t ∧
  formatMarkdown (lit "- " ++ t ++ [13]) = lit "- " ++ t ++ [13].
Proof.
  intros Hp Hlt. destruct (plain_triggers t Hp) as (H35 & H42 & H10).
  destruct Hp as [_ Hd]. unfold formatMarkdown.
  change (lit "- " ++ t) with (45 :: 32 :: t).
  change (lit "- " ++ t ++ [13]) with (45 :: 32 :: t ++ [13]).
  cbn [truthy negb]. split.
  - assert (H35' : Forall (λ c, (c =? 35) = false) (45 :: 32 :: t))
      by (by do 2 (constructor; [done|])).
    assert (H42' : Forall (λ c, (c =? 42) = false) (45 :: 32 :: t))
      by (by do 2 (constructor; [done|])).
    rewrite (replace_all_no_trigger _ _ _ _ match_h2_trigger H35').
    rewrite (replace_all_no_trigger _ _ _ _ match_h3_trigger H35').
    rewrite (replace_all_no_trigger _ _ _ _ match_strong_trigger H42').
    rewrite (replace_all_no_trigger _ _ _ _ match_em_trigger H42').
    assert (Hm : match_li (45 :: 32 :: t) = Some (t, (2 + length t)%nat)).
    { unfold match_li. change (lit "- ") with [45; 32].
      change (strip_prefix [45; 32] (45 :: 32 :: t)) with (Some t).
      cbn [mbind option_bind]. by rewrite (lazy_until_eol_end t Hlt). }
    unfold replace_all at 2. rewrite (replace_go_hit _ _ _ _ _ _ Hm).
    rewrite replace_go_skip_all by (cbn; lia). rewrite app_nil_r.
    apply (replace_all_no_trigger _ _ _ _ match_nl_trigger). template_forall.
  - assert (H35' : Forall (λ c, (c =? 35) = false) (45 :: 32 :: t ++ [13])).
    { do 2 (constructor; [done|]). apply Forall_app.
      split; [done | by repeat constructor]. }
    assert (H42' : Forall (λ c, (c =? 42) = false) (45 :: 32 :: t ++ [13])).
    { do 2 (constructor; [done|]). apply Forall_app.
      split; [done | by repeat constructor]. }
    assert (H10' : Forall (λ c, (c =? 10) = false) (45 :: 32 :: t ++ [13])).
    { do 2 (constructor; [done|]). apply Forall_app.
      split; [done | by repeat constructor]. }
    rewrite (replace_all_no_trigger _ _ _ _ match_h2_trigger H35').
    rewrite (replace_all_no_trigger _ _ _ _ match_h3_trigger H35').
    rewrite (replace_all_no_trigger _ _ _ _ match_strong_trigger H42').
    rewrite (replace_all_no_trigger _ _ _ _ match_em_trigger H42').
    assert (Hm : match_li (45 :: 32 :: t ++ [13]) = None).
    { unfold match_li. change (lit "- ") with [45; 32].
      change (strip_prefix [45; 32] (45 :: 32 :: t ++ [13]))
        with (Some (t ++ [13])).
      cbn [mbind option_bind].
      by rewrite (lazy_until_eol_carriage_return t [] Hlt). }
    assert (Htail : dash_space_free (32 :: t ++ [13]) = true).
    { change (32 :: t ++ [13]) with ((32 :: t) ++ [13]).
      apply dash_space_free_app; [| done | right; by vm_compute].
      cbn [dash_space_free]. rewrite Hd. by destruct t. }
    unfold replace_all at 2. rewrite (replace_go_miss _ _ _ _ Hm).
    fold (replace_all match_li tmpl_li (32 :: t ++ [13])).
    rewrite (replace_li_no_dash_space _ Htail).
    apply (replace_all_no_trigger _ _ _ _ match_nl_trigger H10').
Qed.

(** * The further properties at sample inputs *)

Lemma entitlement_untouched_without_upgrade_witness :
  localStorage
    (world (run sample_backend
              [EvChangeUrl (lit "https://youtu.be/abc"); EvClick Transcribe;
               EvResponse 0 (Rejected error_429); EvCloseDialog]
              (start ∅))) = ∅ ∧
  proKey
    (world (run sample_backend
              [EvChangeUrl (lit "https://youtu.be/abc"); EvClick Transcribe;
               EvResponse 0 (Rejected error_429); EvCloseDialog]
              (start ∅))) = proKey (world (start ∅)).
Proof.
  apply (entitlement_untouched_without_upgrade sample_backend ∅
           [EvChangeUrl (lit "https://youtu.be/abc"); EvClick Transcribe;
            EvResponse 0 (Rejected error_429); EvCloseDialog]).
  reflexivity.
Defined.

Lemma paywall_only_on_quota_witness :
  isUpgradeModalOpen
    (world (run sample_backend
              [EvChangeUrl (lit "https://youtu.be/abc"); EvClick Transcribe;
               EvResponse 0 (Rejected error_500)]
              (start ∅))) = false.
Proof.
  apply (paywall_only_on_quota sample_backend ∅
           [EvChangeUrl (lit "https://youtu.be/abc"); EvClick Transcribe;
            EvResponse 0 (Rejected error_500)]).
  reflexivity.
Defined.

Lemma stale_summary_overwrites_witness :
  ∃ s1 s2,
    run sample_backend [EvClick Summarize; EvClick Transcribe]
      (mkSys sample_world [] []) = s1 ∧
    summary (world s1) = [] ∧
    run sample_backend
      [EvResponse 1 (Fulfilled (mkData (lit "new transcript") []));
       EvResponse 0 (Fulfilled (mkData [] (lit "summary of hello world")))]
      s1 = s2 ∧
    inflight s2 = [] ∧
    transcript (world s2) = lit "new transcript" ∧
    summary (world s2) = lit "summary of hello world".
Proof.
  apply (stale_summary_overwrites sample_backend sample_world []
           (mkData (lit "new transcript") [])
           (mkData [] (lit "summary of hello world"))); reflexivity.
Defined.

Lemma other_flags_untouched_witness :
  ∃ req w1 k w3,
    handler sample_backend Summarize sample_world = Pending req w1 k ∧
    loading w1 !! stage_id Enrich = loading sample_world !! stage_id Enrich ∧
    k (Rejected error_500) w1 = Settled (Normal ()) w3 ∧
    loading w3 !! stage_id Enrich = loading w1 !! stage_id Enrich.
Proof.
  destruct (other_flags_untouched sample_backend Summarize Enrich sample_world
              (Rejected error_500) sample_world eq_refl ltac:(discriminate))
    as (req & w1 & k & _ & Hk & H1 & _).
  destruct (other_flags_untouched sample_backend Summarize Enrich sample_world
              (Rejected error_500) w1 eq_refl ltac:(discriminate))
    as (req' & w1' & k' & w3 & Hk' & _ & H2 & H3).
  rewrite Hk in Hk'. injection Hk' as <- <- <-.
  by exists req, w1, k, w3.
Defined.

Lemma request_carries_input_as_held_witness :
  ∃ req w1 k,
    handler sample_backend Transcribe
      (with_url (lit " https://youtu.be/abc ") sample_world) =
      Pending req w1 k ∧
    req_url req =
      sample_backend ++ lit "/api" ++ lit "/videos/" ++ stage_id Transcribe ∧
    req_data req = BodyUrl (lit " https://youtu.be/abc ").
Proof.
  apply (request_carries_input_as_held sample_backend Transcribe
           (with_url (lit " https://youtu.be/abc ") sample_world)).
  reflexivity.
Defined.

Lemma formatMarkdown_plain_text_witness :
  formatMarkdown (lit "<img src=x onerror=alert(1)>") =
  lit "<img src=x onerror=alert(1)>".
Proof.
  apply formatMarkdown_plain_text.
  unfold plain. apply (bool_decide_unpack _). by vm_compute.
Defined.

Lemma formatMarkdown_h3_shadowed_witness :
  formatMarkdown (lit "### " ++ lit "Title") = lit "#" ++ tmpl_h2 (lit "Title").
Proof.
  apply formatMarkdown_h3_shadowed.
  - unfold plain. apply (bool_decide_unpack _). by vm_compute.
  - apply (bool_decide_unpack _). by vm_compute.
Defined.

Lemma formatMarkdown_strong_witness :
  formatMarkdown (lit "**" ++ lit "bold" ++ lit "**") = tmpl_strong (lit "bold").
Proof.
  apply formatMarkdown_strong.
  - unfold plain. apply (bool_decide_unpack _). by vm_compute.
  - apply (bool_decide_unpack _). by vm_compute.
Defined.

Lemma formatMarkdown_list_item_witness :
  formatMarkdown (lit "- " ++ lit "item") = tmpl_li (lit "item") ∧
  formatMarkdown (lit "- " ++ lit "item" ++ [13]) =
    lit "- " ++ lit "item" ++ [13].
Proof.
  apply formatMarkdown_list_item.
  - unfold plain. apply (bool_decide_unpack _). by vm_compute.
  - apply (bool_decide_unpack _). by vm_compute.
Defined.

(** * The handlers on dynamically typed data *)

Ltac unfold_dyn :=
  unfold Dyn.handler, Dyn.handleTranscribe, Dyn.handleSummarize,
    Dyn.handleEnrich, Dyn.handleApiCall, Dyn.setLoadingState, Dyn.setLoading,
    Dyn.setTranscript, Dyn.setSummary, Dyn.setEnrichment,
    Dyn.setIsUpgradeModalOpen, Dyn.toast_success, Dyn.toast_error, Dyn.toast,
    Dyn.try_catch, Dyn.try_finally, Dyn.throw, Dyn.eval, Dyn.axios_post,
    Dyn.modify, Dyn.read, mbind, mret, Dyn.M_bind, Dyn.M_ret;
  cbn [Dyn.task_bind Dyn.task_catch Dyn.task_finally].

Section DynHandlers.

Variable BACKEND_URL : jsstring.

(** [handleApiCall] rethrows every rejection, as the error axios gave. *)
Lemma dyn_handleApiCall_rethrows endpoint d action w e w2 :
  ∃ req w1 k w3,
    Dyn.handleApiCall BACKEND_URL endpoint d action w = Dyn.Pending req w1 k ∧
    k (Dyn.Rejected e) w2 = Dyn.Settled (Dyn.Throw (Dyn.ErrAxios e)) w3.
Proof.
  unfold_dyn.
  destruct (Dyn.status_is_429 (Dyn.ErrAxios e)) eqn:E;
    (eexists _, _, _, _; split; [reflexivity|];
     cbn [Dyn.task_bind Dyn.task_catch Dyn.task_finally];
     rewrite E; reflexivity).
Qed.

(** A handler whose input is a string settles normally, at once or after
    the call, whatever comes back. *)
Lemma dyn_handler_on_string s w t :
  Dyn.stage_input s w = Dyn.JString t →
  (∃ w', Dyn.handler BACKEND_URL s w = Dyn.Settled (Dyn.Normal ()) w') ∨
  (∃ req w1 k,
     Dyn.handler BACKEND_URL s w = Dyn.Pending req w1 k ∧
     ∀ o w2, ∃ w3,
       k o w2 = Dyn.Settled (Dyn.Normal ()) w3 ∧
       match o with
       | Dyn.Rejected _ => Dyn.stage_field s w3 = Dyn.stage_field s w2
       | Dyn.Fulfilled d =>
           match d with
           | Dyn.JUndefined | Dyn.JNull =>
               Dyn.stage_field s w3 = Dyn.stage_field s w2 ∧
               Dyn.toasts w3 = Dyn.toasts w2
           | _ => True
           end
       end).
Proof.
  intros Hin.
  destruct s; cbn [Dyn.stage_input] in Hin; unfold_dyn;
    try rewrite Hin; cbn [Dyn.call_trim Dyn.task_bind];
    [ injection Hin as <-; destruct (truthy (trim (Dyn.url w)))
    | destruct (truthy (trim t)) | destruct (truthy (trim t)) ];
    cbn [negb]; try (left; eexists; reflexivity);
    (right; eexists _, _, _; split; [reflexivity|];
     intros [d|e] w2; cbn [Dyn.task_bind Dyn.task_catch Dyn.task_finally];
     [ destruct d; eexists; (split; [reflexivity | done])
     | destruct (Dyn.status_is_429 (Dyn.ErrAxios e));
       eexists; (split; [reflexivity | reflexivity]) ]).
Qed.

(** A handler whose input is not a string throws a [TypeError] before it
    does anything else. *)
Lemma dyn_handler_on_non_string s w :
  (∀ t, Dyn.stage_input s w ≠ Dyn.JString t) →
  Dyn.handler BACKEND_URL s w = Dyn.Settled (Dyn.Throw Dyn.ErrType) w.
Proof.
  intros Hin. destruct s; cbn [Dyn.stage_input] in Hin.
  - by destruct (Hin (Dyn.url w)).
  - unfold_dyn. destruct (Dyn.transcript w) as [| | | |t| |]; try reflexivity.
    by destruct (Hin t).
  - unfold_dyn. destruct (Dyn.transcript w) as [| | | |t| |]; try reflexivity.
    by destruct (Hin t).
Qed.

(** C10, as the code has it.  A handler whose tested state variable
    holds a string (the URL always does) never completes by throwing: it
    settles normally at once, or suspends and then, on every outcome, for
    every value the reply may hold and in every world it resumes in,
    settles normally.  After a rejected call the field of its stage is as
    it was at resumption; after a reply whose body is [null] or missing,
    reading the property raises a [TypeError] that the handler swallows
    as well, and neither the field nor the notifications change.
    [handleApiCall] for its part rethrows every rejection. *)
Theorem handlers_swallow_errors_on_string_input s w t :
  Dyn.stage_input s w = Dyn.JString t →
  ((∃ w', Dyn.handler BACKEND_URL s w = Dyn.Settled (Dyn.Normal ()) w') ∨
   (∃ req w1 k,
      Dyn.handler BACKEND_URL s w = Dyn.Pending req w1 k ∧
      ∀ o w2, ∃ w3,
        k o w2 = Dyn.Settled (Dyn.Normal ()) w3 ∧
        match o with
        | Dyn.Rejected _ => Dyn.stage_field s w3 = Dyn.stage_field s w2
        | Dyn.Fulfilled d =>
            match d with
            | Dyn.JUndefined | Dyn.JNull =>
                Dyn.stage_field s w3 = Dyn.stage_field s w2 ∧
                Dyn.toasts w3 = Dyn.toasts w2
            | _ => True
            end
        end)) ∧
  (∀ endpoint d action e w2, ∃ req w1 k w3,
      Dyn.handleApiCall BACKEND_URL endpoint d action w =
        Dyn.Pending req w1 k ∧
      k (Dyn.Rejected e) w2 = Dyn.Settled (Dyn.Throw (Dyn.ErrAxios e)) w3).
Proof.
  intros Hin. split; [by eapply dyn_handler_on_string|].
  intros. apply dyn_handleApiCall_rethrows.
Qed.

End DynHandlers.

(** ** The two embeddings agree on strings *)

Section Agreement.

Variable BACKEND_URL : jsstring.

Lemma dyn_world_notified t w :
  dyn_world (notified t w) =
  Dyn.mkWorld (url w) (Dyn.JString (transcript w)) (Dyn.JString (summary w))
    (Dyn.JString (enrichment w)) (loading w) (isUpgradeModalOpen w)
    (proKey w) (localStorage w) ((dyn_toast <$> toasts w) ++ [dyn_toast t]).
Proof. unfold dyn_world, notified. cbn. by rewrite fmap_app. Qed.

Lemma dyn_status e :
  Dyn.status_is_429 (Dyn.ErrAxios (dyn_error e)) = status_is_429 e.
Proof. by destruct e as [[r|]]. Qed.

Lemma dyn_detail e fallback :
  Dyn.or_default (Dyn.error_detail (Dyn.ErrAxios (dyn_error e))) fallback =
  Dyn.JString (or_default (error_detail e) fallback).
Proof. by destruct e as [[[st [[[[|c dt]|]]|]]|]]. Qed.

Ltac dyn_world_eq :=
  unfold dyn_world, after_success, after_failure, with_loading,
    with_pipeline, with_modal, notified;
  cbn [url transcript summary enrichment loading isUpgradeModalOpen proKey
       localStorage toasts];
  rewrite ?fmap_app; reflexivity.

(** On a world and a reply that hold strings where the code reads them,
    the dynamically typed handlers do what the string-typed ones do. *)
Lemma dyn_agrees_on_strings s w :
  (∀ w', handler BACKEND_URL s w = Settled (Normal ()) w' →
         Dyn.handler BACKEND_URL s (dyn_world w) =
           Dyn.Settled (Dyn.Normal ()) (dyn_world w')) ∧
  (∀ req w1 k,
     handler BACKEND_URL s w = Pending req w1 k →
     ∃ dk,
       Dyn.handler BACKEND_URL s (dyn_world w) =
         Dyn.Pending (dyn_request req) (dyn_world w1) dk ∧
       ∀ o w2 w3,
         k o w2 = Settled (Normal ()) w3 →
         dk (dyn_outcome o) (dyn_world w2) =
           Dyn.Settled (Dyn.Normal ()) (dyn_world w3)).
Proof.
  destruct (truthy (trim (stage_input s w))) eqn:Hv.
  - destruct (handler_calls BACKEND_URL s w Hv) as (k & Hk & Hok & Hko).
    rewrite Hk. split; [discriminate|].
    intros req w1 k' E. injection E as <- <- <-.
    destruct s; cbn [stage_input] in Hv; unfold_dyn;
      cbn [dyn_world Dyn.url Dyn.transcript Dyn.call_trim Dyn.task_bind];
      rewrite Hv; cbn [negb];
      (eexists; split; [reflexivity|]; intros [d|e] w2 w3 H;
       [ rewrite Hok in H; injection H as <-;
         cbn [dyn_outcome Dyn.task_bind Dyn.task_catch Dyn.task_finally];
         f_equal; dyn_world_eq
       | rewrite Hko in H; injection H as <-;
         cbn [dyn_outcome Dyn.task_bind Dyn.task_catch Dyn.task_finally];
         rewrite dyn_status; unfold after_failure, failure_msg;
         destruct (status_is_429 e);
         cbn [Dyn.task_bind Dyn.task_catch Dyn.task_finally];
         rewrite dyn_detail; f_equal; dyn_world_eq ]).
  - rewrite (handler_refuses BACKEND_URL s w Hv). split; [|discriminate].
    intros w' E. injection E as <-.
    destruct s; cbn [stage_input] in Hv; unfold_dyn;
      cbn [dyn_world Dyn.url Dyn.transcript Dyn.call_trim Dyn.task_bind];
      rewrite Hv; cbn [negb]; f_equal; dyn_world_eq.
Qed.

End Agreement.

(** * The dynamically typed handlers at sample inputs *)

Lemma handlers_swallow_errors_on_string_input_witness :
  ((∃ w', Dyn.handler sample_backend Summarize Dyn.sample_world =
            Dyn.Settled (Dyn.Normal ()) w') ∨
   (∃ req w1 k,
      Dyn.handler sample_backend Summarize Dyn.sample_world =
        Dyn.Pending req w1 k ∧
      ∀ o w2, ∃ w3,
        k o w2 = Dyn.Settled (Dyn.Normal ()) w3 ∧
        match o with
        | Dyn.Rejected _ =>
            Dyn.stage_field Summarize w3 = Dyn.stage_field Summarize w2
        | Dyn.Fulfilled d =>
            match d with
            | Dyn.JUndefined | Dyn.JNull =>
                Dyn.stage_field Summarize w3 = Dyn.stage_field Summarize w2 ∧
                Dyn.toasts w3 = Dyn.toasts w2
            | _ => True
            end
        end)) ∧
  (∀ endpoint d action e w2, ∃ req w1 k w3,
      Dyn.handleApiCall sample_backend endpoint d action Dyn.sample_world =
        Dyn.Pending req w1 k ∧
      k (Dyn.Rejected e) w2 = Dyn.Settled (Dyn.Throw (Dyn.ErrAxios e)) w3).
Proof.
  apply (handlers_swallow_errors_on_string_input sample_backend Summarize
           Dyn.sample_world (lit "hello world")).
  reflexivity.
Defined.

(** Against C10 as stated: a transcription fulfilled with a reply whose
    [transcript] is the number 5 stores that number, which is truthy, so
    the two buttons are shown; [handleSummarize] and [handleEnrich] then
    complete by throwing a [TypeError]. *)
Lemma non_string_transcript_makes_handlers_throw :
  ∃ req w1 k w3,
    Dyn.handleTranscribe sample_backend Dyn.sample_world =
      Dyn.Pending req w1 k ∧
    k (Dyn.Fulfilled (Dyn.JObject [(lit "transcript", Dyn.JNumber 5)])) w1 =
      Dyn.Settled (Dyn.Normal ()) w3 ∧
    Dyn.transcript w3 = Dyn.JNumber 5 ∧
    Dyn.js_truthy (Dyn.transcript w3) = true ∧
    Dyn.handleSummarize sample_backend w3 =
      Dyn.Settled (Dyn.Throw Dyn.ErrType) w3 ∧
    Dyn.handleEnrich sample_backend w3 =
      Dyn.Settled (Dyn.Throw Dyn.ErrType) w3.
Proof.
  eexists _, _, _, _. split; [reflexivity|]. split; [reflexivity|].
  split_and!; reflexivity.
Qed.
